(** * Typo detection and annotation pipeline of the composition corrector

    A shallow embedding of
    - [src/web/js/typo-detector.js]  (class [TypoDetector]),
    - [src/web/js/app.js]            ([processOCRResults], [drawAnnotations],
                                      [drawLegend], and the methods that
                                      drive an upload: [handleImageUpload],
                                      [processImageWithTesseract],
                                      [cancelProcessing], [resetApp]),
    - the multi-language variant of the application class, kept in the
      repository without its file name (its upload methods and
      [retryWithTraditionalChinese]; it calls the [processOCRResults] and
      the [resetApp] of app.js),
    followed by the properties of the specification that concern them.

    Conventions.
    - A JavaScript string is the list of its UTF-16 code units ([N]).
    - Pixel coordinates are integers ([Z]); confidences are rationals ([Q]):
      the engine reports percentages, and the only arithmetic on them is a
      division by 100, an addition of 10 and a comparison.
    - A call that raises a JavaScript exception returns [Throw].
    - Where a method is read with the objects it writes, these are kept in
      a store that the method passes along; an asynchronous method is a
      function of the page and of an environment that settles its waits. *)

From Stdlib Require Import ZArith NArith QArith Lia Lqa.
From Stdlib Require Import String Ascii.
From stdpp Require Import base option list gmap sets strings.

Local Open Scope N_scope.

(* ===================================================================== *)
(** ** JavaScript strings and values                                     *)
(* ===================================================================== *)

Abbreviation jsstring := (list N).

(** An ASCII literal as a JavaScript string. *)
Definition js (s : string) : jsstring :=
  List.map N_of_ascii (list_ascii_of_string s).

Definition isUpperAscii (c : N) : bool := (65 <=? c) && (c <=? 90).
Definition isLowerAscii (c : N) : bool := (97 <=? c) && (c <=? 122).
Definition isDigit (c : N) : bool := (48 <=? c) && (c <=? 57).

(** The regular-expression class [\w] (no [u] flag): [[A-Za-z0-9_]]. *)
Definition isWordChar (c : N) : bool :=
  isUpperAscii c || isLowerAscii c || isDigit c || (c =? 95).

(** What [s.toLowerCase().replace(/[^\w]/g, '')] keeps of one code unit of
    [s]: ASCII letters (lower-cased), digits and the underscore, and the two
    code points outside ASCII whose lower-case form has an ASCII letter,
    U+0130 (i followed by U+0307) and U+212A (the Kelvin sign, k). *)
Definition keyUnit (c : N) : jsstring :=
  if isUpperAscii c then [c + 32]
  else if isLowerAscii c || isDigit c || (c =? 95) then [c]
  else if c =? 0x130 then [0x69]
  else if c =? 0x212A then [0x6B]
  else [].

Definition asciiKey (s : jsstring) : jsstring := flat_map keyUnit s.

(** [String.prototype.toLowerCase] belongs to the host, not to the
    repository: its Unicode tables are taken as an interface, with the two
    facts about it that the classifier relies on. *)
Class Host := {
  toLowerCase : jsstring -> jsstring;
  toLowerCase_word_chars :
    forall s, List.filter isWordChar (toLowerCase s) = asciiKey s;
  toLowerCase_nonempty :
    forall s, toLowerCase s = [] -> s = []
}.

(** Lower-casing, one code unit at a time, of text written in ASCII, the
    Latin-1 supplement, U+0130, U+212A and code units that have no lower-case
    form (digits, punctuation, symbols, CJK ideographs): on such text this is
    [toLowerCase] itself. *)
Definition lowerUnit (c : N) : jsstring :=
  if isUpperAscii c then [c + 32]
  else if (0xC0 <=? c) && (c <=? 0xDE) && negb (c =? 0xD7) then [c + 32]
  else if c =? 0x130 then [0x69; 0x307]
  else if c =? 0x212A then [0x6B]
  else [c].

Definition lowerUnits (s : jsstring) : jsstring := flat_map lowerUnit s.

(** [s === t] on strings. *)
Definition strictEq (s t : jsstring) : bool := bool_decide (s = t).

(** [s.startsWith(t)] and [s.includes(t)]. *)
Fixpoint startsWith (s t : jsstring) : bool :=
  match t, s with
  | [], _ => true
  | _ :: _, [] => false
  | d :: t', c :: s' => (c =? d) && startsWith s' t'
  end.

Fixpoint includes (s t : jsstring) : bool :=
  startsWith s t ||
  match s with
  | [] => false
  | _ :: s' => includes s' t
  end.

(** [s.replace(/c/g, d)] for single code units [c] and [d]. *)
Definition replaceAll (c d : N) (s : jsstring) : jsstring :=
  List.map (fun u => if u =? c then d else u) s.

(** Exceptions. *)
Inductive Error : Type := TypeError.

Inductive Result (A : Type) : Type :=
| Ok (a : A)
| Throw (e : Error).
Arguments Ok {A} a.
Arguments Throw {A} e.

#[export] Instance Result_ret : MRet Result := fun _ a => Ok a.
#[export] Instance Result_bind : MBind Result := fun _ _ f m =>
  match m with
  | Ok a => f a
  | Throw e => Throw e
  end.

(** The values a property read on a correction table can produce: an own
    entry (a string), or a member inherited from [Object.prototype]. *)
Inductive JSValue : Type :=
| VString (s : jsstring)
| VNative (name : jsstring)      (* a built-in function, e.g. [Object] *)
| VObjectPrototype.              (* [Object.prototype] itself *)

Definition truthy (v : JSValue) : bool :=
  match v with
  | VString [] => false
  | _ => true
  end.

(** [String(v)], as a template literal computes it. *)
Definition toStringValue (v : JSValue) : jsstring :=
  match v with
  | VString s => s
  | VNative name => js "function " ++ name ++ js "() { [native code] }"
  | VObjectPrototype => js "[object Object]"
  end.

(* ===================================================================== *)
(** ** Data model                                                        *)
(* ===================================================================== *)

Inductive Tier : Type := high | medium | low.

#[export] Instance Tier_eq_dec : EqDecision Tier.
Proof. solve_decision. Defined.

(** A bounding box as the normalizer builds it. *)
Record BBox : Type := mkBBox {
  x0 : Z; y0 : Z; x1 : Z; y1 : Z; width : Z; height : Z
}.

Record Word : Type := mkWord {
  w_text : jsstring;
  w_confidence : Q;
  w_bbox : option BBox            (* [None]: the field is absent *)
}.

(** What the [words] field of a result object may hold. *)
Inductive WordsField : Type :=
| WUndefined
| WNull
| WString (s : jsstring)
| WNumber (n : Z)
| WArray (ws : list Word).

Record OCRResults : Type := mkOCRResults {
  r_text : jsstring;
  r_words : WordsField;
  r_confidence : Q;
  r_word_count : nat
}.

Record Typo : Type := mkTypo {
  t_original : jsstring;
  t_correction : JSValue;
  t_confidence : Tier;
  t_bbox : option BBox;
  t_position : Z * Z
}.

Record TypoStats : Type := mkTypoStats {
  total : nat;
  high_confidence : nat;
  medium_confidence : nat;
  low_confidence : nat
}.

(* ===================================================================== *)
(** ** [TypoDetector] (typo-detector.js)                                 *)
(* ===================================================================== *)

(** The fields the constructor sets.  A correction table is kept as the
    sequence of its entries in [Object.entries] order, which for these keys
    (none is an array index) is the order of the object literal. *)
Record TypoDetector : Type := mkTypoDetector {
  typoCorrections : list (jsstring * jsstring);
  chineseTypoCorrections : list (jsstring * jsstring);
  commonWords : gset jsstring
}.

Definition englishTable : list (jsstring * jsstring) :=
  [ (js "sumer", js "summer");
    (js "familly", js "family");
    (js "wich", js "which");
    (js "whether", js "weather");
    (js "beutiful", js "beautiful");
    (js "enjoied", js "enjoyed");
    (js "swiming", js "swimming");
    (js "favrite", js "favorite");
    (js "bulding", js "building");
    (js "resturant", js "restaurant");
    (js "delisious", js "delicious");
    (js "cant", js "can't");
    (js "wont", js "won't");
    (js "dont", js "don't");
    (js "teh", js "the");
    (js "recieve", js "receive");
    (js "seperate", js "separate");
    (js "occured", js "occurred");
    (js "begining", js "beginning");
    (js "accomodate", js "accommodate") ].

(** The second table, code unit by code unit as the source file has it (the
    ideographs of the original pairs are stored there in a damaged encoding:
    three code units each, none of them ASCII). *)
Definition chineseTable : list (jsstring * jsstring) :=
  [ ([0xC1; 0xF6; 0xD1],     [0xC2; 0xFA; 0x221E]);
    ([0xC2; 0xFA; 0xAE],     [0xC2; 0xDC; 0xE7]);
    ([0x2030; 0xAA; 0xF1],   [0xC2; 0x2022; 0x3C0]);
    ([0xC8; 0xC7; 0xA3],     [0xC2; 0xEC; 0x2122]);
    ([0xC2; 0xC5; 0xF6],     [0x2030; 0x3A9; 0xFA]);
    ([0xC2; 0xC9; 0xE8],     [0xCB; 0xB1; 0xB0]);
    ([0x2030; 0xAA; 0x2022], [0xC2; 0x2211; 0x2264]);
    ([0xC1; 0xAA; 0xC9],     [0xC1; 0xC7; 0xBA]) ].

(** The same pairs as ideographs, as the comments of the source name them
    (de/di, zai, ta, na, zuo, xiang, yi, lian). *)
Definition chineseTableIntended : list (jsstring * jsstring) :=
  [ ([0x7684], [0x5730]); ([0x5728], [0x518D]); ([0x4ED6], [0x5979]);
    ([0x90A3], [0x54EA]); ([0x505A], [0x4F5C]); ([0x50CF], [0x8C61]);
    ([0x4EE5], [0x5DF2]); ([0x7EC3], [0x70BC]) ].

Definition commonWordList : list jsstring :=
  List.map js
  [ "the"; "and"; "or"; "but"; "in"; "on"; "at"; "to"; "for"; "of"; "with";
    "by"; "from"; "up"; "about"; "into"; "through"; "during"; "before";
    "after"; "above"; "below"; "between"; "among"; "under"; "over";
    "a"; "an"; "is"; "was"; "are"; "were"; "be"; "been"; "being";
    "have"; "has"; "had"; "do"; "does"; "did"; "will"; "would"; "could";
    "should"; "may"; "might"; "must"; "can"; "cannot"; "this"; "that";
    "these"; "those"; "i"; "you"; "he"; "she"; "it"; "we"; "they";
    "me"; "him"; "her"; "us"; "them"; "my"; "your"; "his"; "our"; "their";
    "all"; "any"; "both"; "each"; "few"; "more"; "most"; "other"; "some";
    "such"; "no"; "nor"; "not"; "only"; "own"; "same"; "so"; "than"; "too";
    "very"; "just"; "now"; "here"; "there"; "when"; "where"; "why"; "how";
    "what"; "which"; "who"; "whom"; "whose"; "if"; "because"; "as"; "until";
    "while"; "although"; "though"; "since"; "unless"; "whether"; "wherever"
  ]%string.

(** [new TypoDetector()]. *)
Definition newTypoDetector : TypoDetector :=
  {| typoCorrections := englishTable;
     chineseTypoCorrections := chineseTable;
     commonWords := list_to_set commonWordList |}.

(** Members every object literal inherits from [Object.prototype]. *)
Definition objectPrototype : list (jsstring * JSValue) :=
  [ (js "constructor", VNative (js "Object"));
    (js "__defineGetter__", VNative (js "__defineGetter__"));
    (js "__defineSetter__", VNative (js "__defineSetter__"));
    (js "hasOwnProperty", VNative (js "hasOwnProperty"));
    (js "__lookupGetter__", VNative (js "__lookupGetter__"));
    (js "__lookupSetter__", VNative (js "__lookupSetter__"));
    (js "isPrototypeOf", VNative (js "isPrototypeOf"));
    (js "propertyIsEnumerable", VNative (js "propertyIsEnumerable"));
    (js "toString", VNative (js "toString"));
    (js "valueOf", VNative (js "valueOf"));
    (js "__proto__", VObjectPrototype);
    (js "toLocaleString", VNative (js "toLocaleString")) ].

Definition assoc {V : Type} (k : jsstring) (tbl : list (jsstring * V))
  : option V :=
  snd <$> List.find (fun e => strictEq (fst e) k) tbl.

(** [table[key]]: an own entry first, then the prototype; [None] is
    [undefined]. *)
Definition getProperty (table : list (jsstring * jsstring)) (key : jsstring)
  : option JSValue :=
  match assoc key table with
  | Some v => Some (VString v)
  | None => assoc key objectPrototype
  end.

(** Truthiness of a value that may be [null] or [undefined]. *)
Definition truthyOpt (v : option JSValue) : bool :=
  match v with
  | Some v => truthy v
  | None => false
  end.

(** [/[|]{1,}|[1l]{2,}|[0o]{2,}/i.test(s)]: a pipe, or two consecutive code
    units among 1, l, L, or two consecutive among 0, o, O.  The expression
    is created at each use and has no [g] flag, so [test] keeps no state. *)
Definition isPipe (c : N) : bool := c =? 124.
Definition isOneEll (c : N) : bool := (c =? 49) || (c =? 108) || (c =? 76).
Definition isZeroOh (c : N) : bool := (c =? 48) || (c =? 111) || (c =? 79).

Fixpoint suspiciousPatterns (s : jsstring) : bool :=
  match s with
  | [] => false
  | c :: t =>
      isPipe c
      || (isOneEll c && match t with d :: _ => isOneEll d | [] => false end)
      || (isZeroOh c && match t with d :: _ => isZeroOh d | [] => false end)
      || suspiciousPatterns t
  end.

(** [s.replace(/[|]/g,'l').replace(/1/g,'l').replace(/0/g,'o')]. *)
Definition repair (s : jsstring) : jsstring :=
  replaceAll 48 111 (replaceAll 49 108 (replaceAll 124 108 s)).

Section Classifier.
Context `{Host}.

Definition cleanWord (word : jsstring) : jsstring :=
  List.filter isWordChar (toLowerCase word).

(** The loop over [Object.entries(this.typoCorrections)], left at the
    first entry found in either form of the word. *)
Definition partialMatch (table : list (jsstring * jsstring))
    (cleanedWord originalWord : jsstring) : option jsstring :=
  snd <$> List.find
    (fun e => includes cleanedWord (fst e)
              || includes (toLowerCase originalWord) (fst e))
    table.

(** The dictionary stage: the value of [(correction, confidence)] when the
    common-word test is reached. *)
Definition dictionaryStage (this : TypoDetector)
    (cleanedWord originalWord : jsstring) : option JSValue * Tier :=
  if truthyOpt (getProperty (typoCorrections this) cleanedWord)
  then (getProperty (typoCorrections this) cleanedWord, high)
  else match partialMatch (typoCorrections this) cleanedWord originalWord with
       | Some fix_ => (Some (VString fix_), high)
       | None => (None, low)
       end.

(** The heuristic stage, entered with the result of the dictionary
    stage. *)
Definition heuristicStage (this : TypoDetector)
    (cleanedWord originalWord : jsstring) (st : option JSValue * Tier)
    : option JSValue * Tier :=
  let '(correction, confidence) := st in
  if negb (truthyOpt correction)
     && negb (bool_decide (cleanedWord ∈ commonWords this))
  then
    if (4 <? length cleanedWord)%nat then
      if suspiciousPatterns originalWord then
        let suggested := repair originalWord in
        if negb (strictEq suggested originalWord)
        then (Some (VString (toLowerCase suggested)), medium)
        else (correction, medium)
      else (correction, confidence)
    else (correction, confidence)
  else (correction, confidence).

(** One iteration of the loop of [detectTypos]: the candidate pushed for
    [wordData], if any. *)
Definition classifyWord (this : TypoDetector) (wordData : Word)
    : option Typo :=
  let originalWord := w_text wordData in
  let cleanedWord := cleanWord originalWord in
  if (length cleanedWord <? 2)%nat then None
  else
    let '(correction, confidence) :=
      heuristicStage this cleanedWord originalWord
        (dictionaryStage this cleanedWord originalWord) in
    match correction with
    | Some v =>
        if truthy v then
          Some {| t_original := originalWord;
                  t_correction := v;
                  t_confidence := confidence;
                  t_bbox := w_bbox wordData;
                  t_position :=
                    match w_bbox wordData with
                    | Some b => (x0 b, y0 b)
                    | None => (0, 0)%Z
                    end |}
        else None
    | None => None
    end.

Definition truthyWords (w : WordsField) : bool :=
  match w with
  | WUndefined | WNull => false
  | WString s => negb (strictEq s [])
  | WNumber n => negb (n =? 0)%Z
  | WArray _ => true
  end.

Definition isArray (w : WordsField) : bool :=
  match w with
  | WArray _ => true
  | _ => false
  end.

(** [detectTypos(ocrResults)]; the argument is [None] when the caller
    passes [null] (the application resets [this.ocrResults] to [null]). *)
Definition detectTypos (this : TypoDetector) (ocrResults : option OCRResults)
    : Result (list Typo) :=
  match ocrResults with
  | None => Throw TypeError
  | Some r =>
      if negb (truthyWords (r_words r)) || negb (isArray (r_words r))
      then Ok []
      else match r_words r with
           | WArray ws => Ok (omap (classifyWord this) ws)
           | _ => Ok []
           end
  end.

End Classifier.

Definition countTier (t : Tier) (typos : list Typo) : nat :=
  length (List.filter (fun c => bool_decide (t_confidence c = t)) typos).

Definition getTypoStats (typos : list Typo) : TypoStats :=
  {| total := length typos;
     high_confidence := countTier high typos;
     medium_confidence := countTier medium typos;
     low_confidence := countTier low typos |}.

(* ===================================================================== *)
(** ** [detectTypos] on the objects it works with                        *)
(* ===================================================================== *)

(** The method seen with the objects it reaches kept in a store: the
    receiver with what its fields hold, the argument, and the objects the
    method creates itself, the array [typos] and the regular expression
    [suspiciousPatterns], each known by its index among those of its kind.
    A regular expression given directly to [replace] has the [g] flag and
    no name: [replace] starts it at index 0 and leaves it there, so these
    stay with the string functions [cleanWord] and [repair]. *)

(** A [RegExp] object for the pattern [[|]{1,}|[1l]{2,}|[0o]{2,}]: its
    flags and the field a match may write. *)
Record RegExp : Type := mkRegExp {
  global : bool;
  ignoreCase : bool;
  lastIndex : nat
}.

Record Store : Type := mkStore {
  receiver : TypoDetector;               (* [this] *)
  argument : option OCRResults;          (* [ocrResults]; [None] is null *)
  regexps : list RegExp;
  arrays : list (list Typo)
}.

Definition set_regexps (f : list RegExp -> list RegExp) (st : Store) : Store :=
  mkStore (receiver st) (argument st) (f (regexps st)) (arrays st).
Definition set_arrays (f : list (list Typo) -> list (list Typo)) (st : Store)
    : Store :=
  mkStore (receiver st) (argument st) (regexps st) (f (arrays st)).

(** A method body: it ends with a value or an exception, in a store. *)
Definition Method (A : Type) : Type := Store -> Result A * Store.

#[export] Instance Method_ret : MRet Method := fun _ a st => (Ok a, st).
#[export] Instance Method_bind : MBind Method := fun _ _ k m st =>
  match m st with
  | (Ok a, st') => k a st'
  | (Throw e, st') => (Throw e, st')
  end.

(** A read of [this]. *)
Definition this_ {A : Type} (read : TypoDetector -> A) : Method A :=
  fun st => (Ok (read (receiver st)), st).

(** [ocrResults.words]; reading a property of null throws. *)
Definition ocrResults_words : Method WordsField :=
  fun st =>
    match argument st with
    | Some r => (Ok (r_words r), st)
    | None => (Throw TypeError, st)
    end.

(** The array literal [[]] and a regular-expression literal: a new object
    each time the literal is evaluated. *)
Definition newArray : Method nat :=
  fun st => (Ok (length (arrays st)), set_arrays (fun l => l ++ [[]]) st).

Definition newRegExp (flags : RegExp) : Method nat :=
  fun st => (Ok (length (regexps st)), set_regexps (fun l => l ++ [flags]) st).

(** [array.push(x)]. *)
Definition push (array : nat) (x : Typo) : Method unit :=
  fun st =>
    match arrays st !! array with
    | Some l => (Ok tt, set_arrays (fun a => <[array := l ++ [x]]> a) st)
    | None => (Throw TypeError, st)
    end.

(** The number of code units at the head of [s] that are in a class. *)
Fixpoint run (class : N -> bool) (s : jsstring) : nat :=
  match s with
  | c :: t => if class c then S (run class t) else 0
  | [] => 0
  end.

(** The classes [[1l]] and [[0o]], with and without the [i] flag. *)
Definition oneEll (i : bool) (c : N) : bool :=
  (c =? 49) || (c =? 108) || (i && (c =? 76)).
Definition zeroOh (i : bool) (c : N) : bool :=
  (c =? 48) || (c =? 111) || (i && (c =? 79)).

(** Where the leftmost match of the pattern in [s] ends, if there is one:
    at each place the alternatives are tried in order, each taking as many
    code units as it can. *)
Fixpoint exec (i : bool) (s : jsstring) : option nat :=
  match s with
  | [] => None
  | _ :: t =>
      if (1 <=? run isPipe s)%nat then Some (run isPipe s)
      else if (2 <=? run (oneEll i) s)%nat then Some (run (oneEll i) s)
      else if (2 <=? run (zeroOh i) s)%nat then Some (run (zeroOh i) s)
      else S <$> exec i t
  end.

(** [regexp.test(s)].  With the [g] flag the search starts at [lastIndex],
    which is then set to the end of the match, or to 0 when there is none;
    without it the search starts at 0 and the object is not written. *)
Definition test (regexp : nat) (s : jsstring) : Method bool :=
  fun st =>
    match regexps st !! regexp with
    | Some r =>
        if global r then
          match exec (ignoreCase r) (drop (lastIndex r) s) with
          | Some e =>
              (Ok true,
               set_regexps
                 (fun l => <[regexp := mkRegExp (global r) (ignoreCase r)
                                         (lastIndex r + e)]> l) st)
          | None =>
              (Ok false,
               set_regexps
                 (fun l => <[regexp := mkRegExp (global r) (ignoreCase r) 0]> l)
                 st)
          end
        else
          (Ok match exec (ignoreCase r) s with
              | Some _ => true
              | None => false
              end,
           st)
    | None => (Throw TypeError, st)
    end.

(** [for (const x of xs) body]. *)
Fixpoint forOf {A : Type} (xs : list A) (body : A -> Method unit)
    : Method unit :=
  match xs with
  | [] => mret tt
  | x :: xs' => _ ← body x; forOf xs' body
  end.

Module OnStore.
Section Methods.
Context `{Host}.

(** The dictionary stage of one turn of the loop: the exact lookup, then
    the loop over the entries. *)
Definition dictionaryStage (cleanedWord originalWord : jsstring)
    : Method (option JSValue * Tier) :=
  exact ← this_ (fun d => getProperty (typoCorrections d) cleanedWord);
  if truthyOpt exact then
    correction ← this_ (fun d => getProperty (typoCorrections d) cleanedWord);
    mret (correction, high)
  else
    entries ← this_ typoCorrections;
    mret (match partialMatch entries cleanedWord originalWord with
          | Some fix_ => (Some (VString fix_), high)
          | None => (None, low)
          end).

(** The heuristic stage. *)
Definition heuristicStage (cleanedWord originalWord : jsstring)
    (found : option JSValue * Tier) : Method (option JSValue * Tier) :=
  let '(correction, confidence) := found in
  if negb (truthyOpt correction) then
    known ← this_ (fun d => bool_decide (cleanedWord ∈ commonWords d));
    if negb known then
      if (4 <? length cleanedWord)%nat then
        suspiciousPatterns ← newRegExp (mkRegExp false true 0);
        suspicious ← test suspiciousPatterns originalWord;
        if (suspicious : bool) then
          let suggested := repair originalWord in
          if negb (strictEq suggested originalWord)
          then mret (Some (VString (toLowerCase suggested)), medium)
          else mret (correction, medium)
        else mret (correction, confidence)
      else mret (correction, confidence)
    else mret (correction, confidence)
  else mret (correction, confidence).

(** The body of the loop of [detectTypos], for one word. *)
Definition detectTypos_word (typos : nat) (wordData : Word) : Method unit :=
  let originalWord := w_text wordData in
  let cleanedWord := cleanWord originalWord in
  if (length cleanedWord <? 2)%nat then mret tt
  else
    found ← dictionaryStage cleanedWord originalWord;
    guessed ← heuristicStage cleanedWord originalWord found;
    let '(correction, confidence) := guessed : option JSValue * Tier in
    match correction with
    | Some v =>
        if truthy v then
          push typos
            {| t_original := originalWord;
               t_correction := v;
               t_confidence := confidence;
               t_bbox := w_bbox wordData;
               t_position :=
                 match w_bbox wordData with
                 | Some b => (x0 b, y0 b)
                 | None => (0, 0)%Z
                 end |}
        else mret tt
    | None => mret tt
    end.

(** [detectTypos(ocrResults)]: the value returned is the array [typos]. *)
Definition detectTypos : Method nat :=
  typos ← newArray;
  words ← ocrResults_words;
  if negb (truthyWords words) || negb (isArray words) then mret typos
  else
    match words with
    | WArray ws => _ ← forOf ws (detectTypos_word typos); mret typos
    | _ => mret typos
    end.

End Methods.
End OnStore.

(** Every object of the first store is in the second, as it was. *)
Definition preserved (st st' : Store) : Prop :=
  receiver st' = receiver st
  /\ argument st' = argument st
  /\ regexps st `prefix_of` regexps st'
  /\ arrays st `prefix_of` arrays st'.

(** What a call has returned, read in a store: the elements of the array
    returned, or the exception. *)
Definition returned (st : Store) (r : Result nat)
    : option (Result (list Typo)) :=
  match r with
  | Ok array => Ok <$> arrays st !! array
  | Throw e => Some (Throw e)
  end.


(** A store with [k] more regular expressions, as [detectTypos] makes
    them. *)
Definition withRegExps (k : nat) (st : Store) : Store :=
  set_regexps (fun l => l ++ replicate k (mkRegExp false true 0)) st.

(* ===================================================================== *)
(** ** The application: normalizer (app.js)                              *)
(* ===================================================================== *)

(** The engine's output, as far as [processOCRResults] reads it.  A field
    that is absent, or is not of the expected kind, is [None]. *)
Record TesseractBBox : Type := mkTesseractBBox {
  e_x0 : Z; e_y0 : Z; e_x1 : Z; e_y1 : Z
}.

Record TesseractWord : Type := mkTesseractWord {
  tw_text : jsstring;
  tw_confidence : Q;                     (* 0 to 100 *)
  tw_bbox : option TesseractBBox
}.

Record TesseractData : Type := mkTesseractData {
  td_text : jsstring;
  td_words : option (list TesseractWord);
  td_confidence : Q                      (* 0 to 100 *)
}.

(** The arrow function given to [tesseractData.words.map]. *)
Definition convertWord (word : TesseractWord) : Result Word :=
  match tw_bbox word with
  | None => Throw TypeError
  | Some b =>
      Ok {| w_text := tw_text word;
            w_confidence := tw_confidence word / 100;
            w_bbox := Some {| x0 := e_x0 b; y0 := e_y0 b;
                              x1 := e_x1 b; y1 := e_y1 b;
                              width := e_x1 b - e_x0 b;
                              height := e_y1 b - e_y0 b |} |}
  end.

Definition processOCRResults (tesseractData : TesseractData)
    : Result OCRResults :=
  match td_words tesseractData with
  | None => Throw TypeError
  | Some ws =>
      words ← mapM convertWord ws;
      Ok {| r_text := td_text tesseractData;
            r_words := WArray words;
            r_confidence := td_confidence tesseractData / 100;
            r_word_count := length words |}
  end.

(* ===================================================================== *)
(** ** The application: annotation layout (app.js)                       *)
(* ===================================================================== *)

Record Image : Type := mkImage { naturalWidth : Z; naturalHeight : Z }.

Record Canvas : Type := mkCanvas { c_width : Z; c_height : Z }.

(** A call that paints, with the drawing state in effect when it is made. *)
Inductive DrawCall : Type :=
| DrawImage (x y : Z)
| StrokeRect (x y w h : Z) (style : string) (lineWidth : Z) (alpha : Q)
| FillRect (x y w h : Z) (style : string) (alpha : Q)
| FillText (text : jsstring) (x y : Z) (style font : string) (alpha : Q).

(** The 2D context: its drawing state and the calls painted so far, oldest
    first. *)
Record Context2D : Type := mkContext2D {
  strokeStyle : string;
  fillStyle : string;
  lineWidth : Z;
  font : string;
  globalAlpha : Q;
  calls : list DrawCall
}.

(** Assigning [canvas.width] clears the canvas and resets its context. *)
Definition resetContext : Context2D :=
  {| strokeStyle := "#000000"; fillStyle := "#000000"; lineWidth := 1;
     font := "10px sans-serif"; globalAlpha := 1; calls := [] |}.

Definition set_strokeStyle (v : string) (ctx : Context2D) : Context2D :=
  mkContext2D v (fillStyle ctx) (lineWidth ctx) (font ctx) (globalAlpha ctx)
    (calls ctx).
Definition set_fillStyle (v : string) (ctx : Context2D) : Context2D :=
  mkContext2D (strokeStyle ctx) v (lineWidth ctx) (font ctx) (globalAlpha ctx)
    (calls ctx).
Definition set_lineWidth (v : Z) (ctx : Context2D) : Context2D :=
  mkContext2D (strokeStyle ctx) (fillStyle ctx) v (font ctx) (globalAlpha ctx)
    (calls ctx).
Definition set_font (v : string) (ctx : Context2D) : Context2D :=
  mkContext2D (strokeStyle ctx) (fillStyle ctx) (lineWidth ctx) v
    (globalAlpha ctx) (calls ctx).
Definition set_globalAlpha (v : Q) (ctx : Context2D) : Context2D :=
  mkContext2D (strokeStyle ctx) (fillStyle ctx) (lineWidth ctx) (font ctx) v
    (calls ctx).
Definition paint (c : DrawCall) (ctx : Context2D) : Context2D :=
  mkContext2D (strokeStyle ctx) (fillStyle ctx) (lineWidth ctx) (font ctx)
    (globalAlpha ctx) (calls ctx ++ [c]).

Definition drawImage (x y : Z) (ctx : Context2D) : Context2D :=
  paint (DrawImage x y) ctx.
Definition strokeRect (x y w h : Z) (ctx : Context2D) : Context2D :=
  paint (StrokeRect x y w h (strokeStyle ctx) (lineWidth ctx) (globalAlpha ctx))
    ctx.
Definition fillRect (x y w h : Z) (ctx : Context2D) : Context2D :=
  paint (FillRect x y w h (fillStyle ctx) (globalAlpha ctx)) ctx.
Definition fillText (text : jsstring) (x y : Z) (ctx : Context2D) : Context2D :=
  paint (FillText text x y (fillStyle ctx) (font ctx) (globalAlpha ctx)) ctx.

(** Statements in sequence, first to last. *)
Definition seq_ (steps : list (Context2D -> Context2D)) (ctx : Context2D)
    : Context2D :=
  foldl (fun c step => step c) ctx steps.

(** [array.forEach] with a callback that may throw. *)
Fixpoint forEach {A S : Type} (f : S -> A -> Result S) (s : S) (l : list A)
    : Result S :=
  match l with
  | [] => Ok s
  | a :: l' => s' ← f s a; forEach f s' l'
  end.

Definition drawLegend (canvasWidth canvasHeight : Z) (ctx : Context2D)
    : Context2D :=
  let legendX := (canvasWidth - 200)%Z in
  let legendY := 20%Z in
  seq_ [ set_fillStyle "rgba(255, 255, 255, 0.9)";
         fillRect legendX legendY 180 80;
         set_strokeStyle "#333";
         set_lineWidth 1;
         strokeRect legendX legendY 180 80;
         set_fillStyle "#333";
         set_font "14px Arial";
         fillText (js "Legend:") (legendX + 10) (legendY + 20);
         set_fillStyle "#dc3545";
         fillText (0x25CF :: js " High confidence typos")
                  (legendX + 10) (legendY + 40);
         set_fillStyle "#ffc107";
         fillText (0x25CF :: js " Possible typos")
                  (legendX + 10) (legendY + 55);
         set_fillStyle "#28a745";
         fillText (0x25CF :: js " Correct words")
                  (legendX + 10) (legendY + 70) ] ctx.

(** [typos.forEach(typo => typoMap.set(typo.original, typo))]. *)
Definition buildTypoMap (typos : list Typo) : gmap jsstring Typo :=
  foldl (fun m typo => <[t_original typo := typo]> m) ∅ typos.

Definition tierColor (t : Tier) : string :=
  if bool_decide (t = high) then "#dc3545" else "#ffc107".

(** The callback of [ocrResults.words.forEach] in [drawAnnotations]. *)
Definition drawWord (typoMap : gmap jsstring Typo) (ctx : Context2D)
    (word : Word) : Result Context2D :=
  match w_bbox word with
  | None => Throw TypeError
  | Some bbox =>
      match typoMap !! w_text word with
      | Some typo =>
          Ok (seq_ [ set_strokeStyle (tierColor (t_confidence typo));
                     set_lineWidth 3;
                     strokeRect (x0 bbox) (y0 bbox) (width bbox) (height bbox);
                     set_fillStyle (tierColor (t_confidence typo));
                     set_font "16px Arial";
                     fillText ([0x2192; 0x20] ++ toStringValue (t_correction typo))
                              (x0 bbox) (y0 bbox - 5) ] ctx)
      | None =>
          Ok (seq_ [ set_strokeStyle "#28a745";
                     set_lineWidth 1;
                     set_globalAlpha (3 # 10);
                     strokeRect (x0 bbox) (y0 bbox) (width bbox) (height bbox);
                     set_globalAlpha 1 ] ctx)
      end
  end.

(** [drawAnnotations(canvas, ctx, img, ocrResults, typos)]: the canvas and
    its context as the call leaves them.  The state in which the context
    arrives plays no part, the canvas being resized first. *)
Definition drawAnnotations (img : Image) (ocrResults : OCRResults)
    (typos : list Typo) : Result (Canvas * Context2D) :=
  let canvas := {| c_width := naturalWidth img;
                   c_height := naturalHeight img |} in
  let ctx := drawImage 0 0 resetContext in
  let typoMap := buildTypoMap typos in
  match r_words ocrResults with
  | WArray ws =>
      ctx' ← forEach (drawWord typoMap) ctx ws;
      Ok (canvas, drawLegend (c_width canvas) (c_height canvas) ctx')
  | _ => Throw TypeError
  end.

(* ===================================================================== *)
(** ** The application: retry with the other script                      *)
(* ===================================================================== *)

(** The state of the application object that the retry reads and writes. *)
Record App : Type := mkApp { ocrResults : option OCRResults }.

(** [a > b] on numbers. *)
Definition gt (a b : Q) : bool := negb (Qle_bool a b).

(** [retryWithTraditionalChinese(file)].  [recognized] is the outcome of the
    steps that involve the engine (worker creation, parameters,
    preprocessing, [recognize]); an exception anywhere in the [try] block
    is caught and the results held are returned.  [processOCRResults] is
    the method of app.js. *)
Definition retryWithTraditionalChinese (this : App)
    (recognized : Result TesseractData) : option OCRResults * App :=
  let attempt : Result App :=
    data ← recognized;
    retryResults ← processOCRResults data;
    original ← match ocrResults this with
               | Some r => Ok r
               | None => Throw TypeError
               end;
    if gt (r_confidence retryResults) (r_confidence original + 10)
    then Ok {| ocrResults := Some retryResults |}
    else Ok this
  in
  match attempt with
  | Ok this' => (ocrResults this', this')
  | Throw _ => (ocrResults this, this)
  end.

(* ===================================================================== *)
(** ** Vocabulary of the statements                                      *)
(* ===================================================================== *)

(** The candidate [detectTypos] pushes for [wordData] with the given
    correction and tier. *)
Definition candidate (wordData : Word) (correction : JSValue) (tier : Tier)
    : Typo :=
  {| t_original := w_text wordData;
     t_correction := correction;
     t_confidence := tier;
     t_bbox := w_bbox wordData;
     t_position := match w_bbox wordData with
                   | Some b => (x0 b, y0 b)
                   | None => (0, 0)%Z
                   end |}.

(** A word reaches the unknown-word heuristic: both dictionary lookups left
    it without a correction, its key has more than four characters and is
    not a common word, and its text matches the suspicious pattern. *)
Definition reachesHeuristic `{Host} (this : TypoDetector) (wordData : Word)
    : bool :=
  let key := cleanWord (w_text wordData) in
  negb (truthyOpt (fst (dictionaryStage this key (w_text wordData))))
  && negb (bool_decide (key ∈ commonWords this))
  && (4 <? length key)%nat
  && suspiciousPatterns (w_text wordData).

(** Both forms of the entries of the second table: as stored in the source
    file, and as the ideographs they stand for. *)
Definition cjkEntries : list (jsstring * jsstring) :=
  chineseTable ++ chineseTableIntended.

(** A result object with the given words and nothing else of interest. *)
Definition resultOf (ws : list Word) : OCRResults :=
  {| r_text := []; r_words := WArray ws; r_confidence := 0;
     r_word_count := length ws |}.

(** A word with the given text, recognised at 90% in a 40 by 20 box. *)
Definition wordOf (text : jsstring) : Word :=
  {| w_text := text; w_confidence := 9 # 10;
     w_bbox := Some (mkBBox 10 20 50 40 40 20) |}.

(** An engine output without words, recognised at [confidence] percent, and
    the result the normalizer makes of it. *)
Definition engineOutput (confidence : Q) : TesseractData :=
  {| td_text := js "text"; td_words := Some []; td_confidence := confidence |}.

Definition normalized (confidence : Q) : OCRResults :=
  {| r_text := js "text"; r_words := WArray [];
     r_confidence := confidence / 100; r_word_count := 0 |}.

(** The rectangles outlined, with the line width of each, oldest first. *)
Definition outlines (cs : list DrawCall) : list (Z * Z * Z * Z * Z) :=
  omap (fun c => match c with
                 | StrokeRect x y w h _ lw _ => Some (x, y, w, h, lw)
                 | _ => None
                 end) cs.

(** The rectangles filled, oldest first. *)
Definition panels (cs : list DrawCall) : list (Z * Z * Z * Z) :=
  omap (fun c => match c with
                 | FillRect x y w h _ _ => Some (x, y, w, h)
                 | _ => None
                 end) cs.

(** The outline [drawAnnotations] gives a word that has a box. *)
Definition outlineOf (typos : list Typo) (word : Word)
    : option (Z * Z * Z * Z * Z) :=
  match w_bbox word with
  | Some b =>
      Some (x0 b, y0 b, width b, height b,
            if bool_decide (is_Some (buildTypoMap typos !! w_text word))
            then 3 else 1)%Z
  | None => None
  end.

(** The words are an array and each of them has a box, as in every result
    of the normalizer. *)
Definition hasBoxes (r : OCRResults) : bool :=
  match r_words r with
  | WArray ws => forallb (fun w => bool_decide (is_Some (w_bbox w))) ws
  | _ => false
  end.

(* ===================================================================== *)
(** ** [TypoDetector], continued: display                                *)
(* ===================================================================== *)

(** The tiers as the strings the source uses for them. *)
Definition tierName (t : Tier) : jsstring :=
  match t with
  | high => js "high"
  | medium => js "medium"
  | low => js "low"
  end.

(** A candidate with the two fields [formatTyposForDisplay] adds to it. *)
Record DisplayTypo : Type := mkDisplayTypo {
  d_typo : Typo;
  displayClass : jsstring;
  icon : jsstring
}.

(** The three icon literals, code unit by code unit as the source file has
    them. *)
Definition iconHigh : jsstring := [0x201A; 0xF9; 0xE5].
Definition iconMedium : jsstring := [0x201A; 0xF6; 0x2020; 0xD4; 0x220F; 0xE8].
Definition iconLow : jsstring := [0xF8FF; 0xFC; 0xED; 0x2260].

Definition formatTyposForDisplay (typos : list Typo) : list DisplayTypo :=
  List.map
    (fun typo =>
       {| d_typo := typo;
          displayClass := js "typo-" ++ tierName (t_confidence typo);
          icon := if bool_decide (t_confidence typo = high) then iconHigh
                  else if bool_decide (t_confidence typo = medium)
                       then iconMedium
                       else iconLow |})
    typos.

(* ===================================================================== *)
(** ** The application: upload, recognition and cancellation             *)
(* ===================================================================== *)

(** The methods of the application class that drive one upload are
    asynchronous: they call the engine and the browser and wait.  Each
    thing waited for is taken from an environment, which also says at which
    waits the user presses the cancel button, so that a run of a method is
    a function of the state of the page and of the environment.  The state
    keeps the fields of [this] and the visibility of the two sections; the
    progress bar, the console and the clock are left out. *)

Record File : Type := mkFile {
  f_name : jsstring; f_size : N; f_type : jsstring
}.

(** A worker of the engine, known by the language it was created for. *)
Inductive Worker : Type := WorkerOf (language : jsstring).

Inductive PageSegMode : Type := SINGLE_BLOCK | AUTO_OSD.
Inductive EngineMode : Type := LSTM_ONLY | DEFAULT.

(** The object given to [setParameters]; an absent property is [None]. *)
Record Parameters : Type := mkParameters {
  tessedit_pageseg_mode : PageSegMode;
  tessedit_ocr_engine_mode : option EngineMode;
  tessedit_char_whitelist : option JSValue;
  preserve_interword_spaces : option jsstring
}.

(** What the page lets be observed from outside. *)
Inductive Event : Type :=
| Alert (message : jsstring)
| Confirm
| SetParameters (w : Worker) (p : Parameters)
| Recognize (w : Worker)
| Terminate (w : Worker)
| ShowResultsLater (typos : list Typo).   (* the timer of 500 ms *)

Record Page : Type := mkPage {
  held : App;                             (* [this.ocrResults] *)
  currentImage : option File;
  currentWorker : option Worker;
  processingCancelled : bool;
  processingVisible : bool;               (* display of the section *)
  resultsVisible : bool;
  events : list Event                     (* oldest first *)
}.

(** A value thrown or a rejection: an error with its message, or anything
    that has no string [message]. *)
Inductive Thrown : Type :=
| ErrorObject (message : jsstring)
| OtherValue.

(** How a call, or a wait, ends. *)
Inductive Completion (A : Type) : Type :=
| Returned (a : A)
| Raised (e : Thrown)
| Pending.                                (* never settles *)
Arguments Returned {A} a.
Arguments Raised {A} e.
Arguments Pending {A}.

(** The places where a method waits. *)
Inductive Point : Type :=
| AtPreprocess | AtCreateWorker | AtSetParameters | AtPreprocessChinese
| AtRecognize | AtTerminate | AtTerminateInCatch
| AtRetryTerminate | AtRetryCreateWorker | AtRetrySetParameters
| AtRetryPreprocess | AtRetryRecognize.

Record Env : Type := mkEnv {
  confirmAnswer : bool;                   (* the answer to [confirm] *)
  globalWorker : option Worker;           (* a global named [worker] *)
  selectedLanguage : jsstring;            (* [languageSelect.value] *)
  settled : Point -> Completion unit;     (* waits whose value is not read *)
  preprocessed : Completion (option File);(* [preprocessImage]; a null blob *)
  recognized : Completion TesseractData;  (* the race with the timeout *)
  retryRecognized : Completion TesseractData;
  cancelDuring : Point -> bool;
  typeErrorMessage : jsstring;            (* the wording of the host *)
  referenceErrorMessage : jsstring
}.

Definition Flow (A : Type) : Type := Page -> Completion A * Page.

#[export] Instance Flow_ret : MRet Flow := fun _ a st => (Returned a, st).
#[export] Instance Flow_bind : MBind Flow := fun _ _ k m st =>
  match m st with
  | (Returned a, st') => k a st'
  | (Raised e, st') => (Raised e, st')
  | (Pending, st') => (Pending, st')
  end.

Definition raise {A : Type} (e : Thrown) : Flow A := fun st => (Raised e, st).

(** [try { body } catch (error) { handler }]. *)
Definition tryCatch {A : Type} (body : Flow A) (handler : Thrown -> Flow A)
    : Flow A :=
  fun st =>
    match body st with
    | (Raised e, st') => handler e st'
    | other => other
    end.

Definition get : Flow Page := fun st => (Returned st, st).
Definition modify (f : Page -> Page) : Flow unit :=
  fun st => (Returned tt, f st).

Definition set_held (r : option OCRResults) (st : Page) : Page :=
  mkPage {| ocrResults := r |} (currentImage st) (currentWorker st)
    (processingCancelled st) (processingVisible st) (resultsVisible st)
    (events st).
Definition set_currentImage (f : option File) (st : Page) : Page :=
  mkPage (held st) f (currentWorker st) (processingCancelled st)
    (processingVisible st) (resultsVisible st) (events st).
Definition set_currentWorker (w : option Worker) (st : Page) : Page :=
  mkPage (held st) (currentImage st) w (processingCancelled st)
    (processingVisible st) (resultsVisible st) (events st).
Definition set_processingCancelled (b : bool) (st : Page) : Page :=
  mkPage (held st) (currentImage st) (currentWorker st) b
    (processingVisible st) (resultsVisible st) (events st).
Definition set_sections (processing results : bool) (st : Page) : Page :=
  mkPage (held st) (currentImage st) (currentWorker st)
    (processingCancelled st) processing results (events st).
Definition record (e : Event) (st : Page) : Page :=
  mkPage (held st) (currentImage st) (currentWorker st)
    (processingCancelled st) (processingVisible st) (resultsVisible st)
    (events st ++ [e]).

Definition emit (e : Event) : Flow unit := modify (record e).

(** [resetApp()] of app.js. *)
Definition resetApp (st : Page) : Page :=
  set_held None (set_currentImage None (set_sections false false st)).

(** [showProcessingSection()]. *)
Definition showProcessingSection (st : Page) : Page :=
  set_processingCancelled false (set_sections true false st).

(** [cancelProcessing()]; the promise of [terminate] is not waited for. *)
Definition cancelProcessing (st : Page) : Page :=
  let st1 := set_processingCancelled true st in
  let st2 := match currentWorker st1 with
             | Some w => set_currentWorker None (record (Terminate w) st1)
             | None => st1
             end in
  resetApp st2.

Section Flows.
Context `{Host}.
Variable env : Env.

(** [await]: the wait ends as the environment says; if the user cancels
    meanwhile, the handler of the button has run when the method resumes. *)
Definition await {A : Type} (p : Point) (outcome : Completion A) : Flow A :=
  fun st => (outcome, if cancelDuring env p then cancelProcessing st else st).

(** An exception of the language itself, with the message of the host. *)
Definition typeError {A : Type} : Flow A :=
  raise (ErrorObject (typeErrorMessage env)).

Definition liftResult {A : Type} (r : Result A) : Flow A :=
  match r with
  | Ok a => mret a
  | Throw TypeError => typeError
  end.

(** [this.currentWorker.method(...)]: the receiver must not be null. *)
Definition theWorker : Flow Worker :=
  st ← get;
  match currentWorker st with
  | Some w => mret w
  | None => typeError
  end.

(** [if (this.currentWorker) { await this.currentWorker.terminate();
    this.currentWorker = null; }]. *)
Definition releaseWorker (p : Point) : Flow unit :=
  st ← get;
  match currentWorker st with
  | Some w =>
      _ ← emit (Terminate w);
      _ ← await p (settled env p);
      modify (set_currentWorker None)
  | None => mret tt
  end.

(** The size test at the head of [processImageWithTesseract]: whether the
    user declined a large image. *)
Definition declinedLargeImage (file : File) : Flow bool :=
  if 5 * 1024 * 1024 <? f_size file
  then _ ← emit Confirm; mret (negb (confirmAnswer env))
  else mret false.

(** The catch clause of [handleImageUpload]. *)
Definition reportFailure (error : Thrown) : Flow unit :=
  match error with
  | ErrorObject message =>
      _ ← emit (Alert
             (if includes message (js "timeout")
              then js "OCR processing timed out. Try with a smaller or clearer image."
              else js "Error processing image: " ++ message
                   ++ js ". Please try again."));
      modify resetApp
  | OtherValue => typeError
  end.

End Flows.

(** *** The methods of app.js *)

Module English.
Section Methods.
Context `{Host}.
Variable env : Env.

(** The whitelist literal: the letters, the digits, and fourteen marks of
    punctuation, the double quote (code 34) and the space among them. *)
Definition whitelist : jsstring :=
  js "ABCDEFGHIJKLMNOPQRSTUVWXYZabcdefghijklmnopqrstuvwxyz0123456789.,!?;:'"
  ++ [34] ++ js "()- ".

Definition parameters : Parameters :=
  {| tessedit_pageseg_mode := AUTO_OSD;
     tessedit_ocr_engine_mode := None;
     tessedit_char_whitelist := Some (VString whitelist);
     preserve_interword_spaces := None |}.

(** [processImageWithTesseract(file)]; [file] is [None] when the blob given
    is null.  The identifier [worker] is declared nowhere in the file: it
    is read from the global scope, and reading it throws a
    [ReferenceError] when no such global exists. *)
Definition processImageWithTesseract (file : option File) : Flow unit :=
  tryCatch
    (f ← match file with
         | Some f => mret f
         | None => typeError env
         end;
     declined ← declinedLargeImage env f;
     if (declined : bool) then modify resetApp
     else
       _ ← await env AtCreateWorker (settled env AtCreateWorker);
       _ ← modify (set_currentWorker (Some (WorkerOf (js "eng"))));
       worker ← match globalWorker env with
                | Some w => mret w
                | None => raise (ErrorObject (referenceErrorMessage env))
                end;
       _ ← modify (set_currentWorker (Some worker));
       w ← theWorker env;
       _ ← emit (SetParameters w parameters);
       _ ← await env AtSetParameters (settled env AtSetParameters);
       st ← get;
       if processingCancelled st then mret tt
       else
         w ← theWorker env;
         _ ← emit (Recognize w);
         data ← await env AtRecognize (recognized env);
         st ← get;
         if processingCancelled st then mret tt
         else
           r ← liftResult env (processOCRResults data);
           _ ← modify (set_held (Some r));
           st ← get;
           typos ← liftResult env
                     (detectTypos newTypoDetector (ocrResults (held st)));
           _ ← emit (Terminate worker);
           _ ← await env AtTerminate (settled env AtTerminate);
           emit (ShowResultsLater typos))
    (fun error => raise error).

(** [handleImageUpload(file)]. *)
Definition handleImageUpload (file : File) : Flow unit :=
  if negb (startsWith (f_type file) (js "image/"))
  then emit (Alert (js "Please upload a valid image file."))
  else
    _ ← modify (set_currentImage (Some file));
    _ ← modify showProcessingSection;
    tryCatch
      (preprocessedImage ← await env AtPreprocess (preprocessed env);
       processImageWithTesseract preprocessedImage)
      (reportFailure env).

End Methods.
End English.

(** *** The methods of the multi-language variant *)

Module MultiLang.
Section Methods.
Context `{Host}.
Variable env : Env.

Definition latin : jsstring :=
  js "ABCDEFGHIJKLMNOPQRSTUVWXYZabcdefghijklmnopqrstuvwxyz".

Definition punctuation : jsstring :=
  js "0123456789.,!?;:'" ++ [34] ++ js "()- ".

(** The table of [getCharacterWhitelist]; the accented letters are kept
    code unit by code unit as the source file has them. *)
Definition whitelists : list (jsstring * jsstring) :=
  [ (js "eng", latin ++ punctuation);
    (js "chi_sim", []);
    (js "chi_tra", []);
    (js "jpn", []);
    (js "kor", []);
    (js "spa",
     latin
     ++ [195; 161; 195; 169; 195; 173; 195; 179; 195; 186; 195; 188; 195;
         177; 195; 195; 8240; 195; 195; 8220; 195; 353; 195; 339; 195; 8216]
     ++ punctuation);
    (js "fra",
     latin
     ++ [195; 160; 195; 162; 195; 164; 195; 169; 195; 168; 195; 170; 195;
         171; 195; 175; 195; 174; 195; 180; 195; 185; 195; 187; 195; 188;
         195; 191; 195; 167; 195; 8364; 195; 8218; 195; 8222; 195; 8240;
         195; 710; 195; 352; 195; 8249; 195; 195; 381; 195; 8221; 195; 8482;
         195; 8250; 195; 339; 197; 184; 195; 8225]
     ++ punctuation);
    (js "deu",
     latin
     ++ [195; 164; 195; 182; 195; 188; 195; 376; 195; 8222; 195; 8211; 195;
         339]
     ++ punctuation) ].

(** [getCharacterWhitelist(langCode)]: [whitelists[langCode] || '']. *)
Definition getCharacterWhitelist (langCode : jsstring) : JSValue :=
  match getProperty whitelists langCode with
  | Some v => if truthy v then v else VString []
  | None => VString []
  end.

(** [lang.startsWith('chi_') || lang === 'jpn' || lang === 'kor']. *)
Definition isCJK (lang : jsstring) : bool :=
  startsWith lang (js "chi_") || strictEq lang (js "jpn")
  || strictEq lang (js "kor").

Definition parametersFor (lang : jsstring) : Parameters :=
  {| tessedit_pageseg_mode := if isCJK lang then SINGLE_BLOCK else AUTO_OSD;
     tessedit_ocr_engine_mode :=
       Some (if isCJK lang then LSTM_ONLY else DEFAULT);
     tessedit_char_whitelist :=
       if truthy (getCharacterWhitelist lang)
       then Some (getCharacterWhitelist lang) else None;
     preserve_interword_spaces := None |}.

(** The character classes of the two expressions of the Chinese check:
    the ideographs U+4E00 to U+9FFF, and the white space of the class
    [\s]. *)
Definition isHan (c : N) : bool := (0x4E00 <=? c) && (c <=? 0x9FFF).

Definition isSpace (c : N) : bool :=
  ((9 <=? c) && (c <=? 13)) || (c =? 32) || (c =? 0xA0) || (c =? 0x1680)
  || ((0x2000 <=? c) && (c <=? 0x200A)) || (c =? 0x2028) || (c =? 0x2029)
  || (c =? 0x202F) || (c =? 0x205F) || (c =? 0x3000) || (c =? 0xFEFF).

(** The number of matches of the ideograph class in [text]. *)
Definition chineseChars (text : jsstring) : nat :=
  length (List.filter isHan text).

(** Whether [text] has a code unit outside the letters, the digits, the white
    space, the ideographs, U+3000 to U+303F and U+FF00 to U+FFEF. *)
Definition hasGibberish (text : jsstring) : bool :=
  existsb (fun c => negb (isLowerAscii c || isUpperAscii c || isDigit c
                          || isSpace c || isHan c
                          || ((0x3000 <=? c) && (c <=? 0x303F))
                          || ((0xFF00 <=? c) && (c <=? 0xFFEF)))) text.

(** [a < b] on numbers. *)
Definition lt (a b : Q) : bool := negb (Qle_bool b a).

(** The test that sends a first pass to the retry. *)
Definition retryWanted (lang : jsstring) (r : OCRResults) : bool :=
  startsWith lang (js "chi_")
  && (lt (r_confidence r) 30 || (chineseChars (r_text r) =? 0)%nat
      || hasGibberish (r_text r))
  && (lt (r_confidence r) 20 && strictEq lang (js "chi_sim")).

Definition retryParameters : Parameters :=
  {| tessedit_pageseg_mode := SINGLE_BLOCK;
     tessedit_ocr_engine_mode := Some LSTM_ONLY;
     tessedit_char_whitelist := None;
     preserve_interword_spaces := Some (js "1") |}.

(** [retryWithTraditionalChinese(file)] with its waits and its worker; what
    it does to the results held is the [retryWithTraditionalChinese]
    above, given the data recognized. *)
Definition retryWithTraditionalChineseFlow : Flow (option OCRResults) :=
  tryCatch
    (_ ← releaseWorker env AtRetryTerminate;
     _ ← await env AtRetryCreateWorker (settled env AtRetryCreateWorker);
     _ ← modify (set_currentWorker (Some (WorkerOf (js "chi_tra"))));
     w ← theWorker env;
     _ ← emit (SetParameters w retryParameters);
     _ ← await env AtRetrySetParameters (settled env AtRetrySetParameters);
     _ ← await env AtRetryPreprocess (settled env AtRetryPreprocess);
     w ← theWorker env;
     _ ← emit (Recognize w);
     data ← await env AtRetryRecognize (retryRecognized env);
     st ← get;
     _ ← modify (set_held
            (ocrResults (snd (retryWithTraditionalChinese (held st)
                                (Ok data)))));
     mret (fst (retryWithTraditionalChinese (held st) (Ok data))))
    (fun _ => st ← get; mret (ocrResults (held st))).

(** [processImageWithTesseract(file)]. *)
Definition processImageWithTesseract (file : File) : Flow unit :=
  tryCatch
    (declined ← declinedLargeImage env file;
     if (declined : bool) then modify resetApp
     else
       let lang := selectedLanguage env in
       _ ← await env AtCreateWorker (settled env AtCreateWorker);
       _ ← modify (set_currentWorker (Some (WorkerOf lang)));
       w ← theWorker env;
       _ ← emit (SetParameters w (parametersFor lang));
       _ ← await env AtSetParameters (settled env AtSetParameters);
       _ ← (if isCJK lang
            then await env AtPreprocessChinese
                   (settled env AtPreprocessChinese)
            else mret tt);
       st ← get;
       if processingCancelled st then mret tt
       else
         w ← theWorker env;
         _ ← emit (Recognize w);
         data ← await env AtRecognize (recognized env);
         st ← get;
         if processingCancelled st then mret tt
         else
           r ← liftResult env (processOCRResults data);
           _ ← modify (set_held (Some r));
           if retryWanted lang r
           then _ ← retryWithTraditionalChineseFlow; mret tt
           else
             st ← get;
             typos ← liftResult env
                       (detectTypos newTypoDetector (ocrResults (held st)));
             _ ← releaseWorker env AtTerminate;
             emit (ShowResultsLater typos))
    (fun error =>
       _ ← releaseWorker env AtTerminateInCatch;
       raise error).

(** [handleImageUpload(file)]: [preprocessedImage || file]. *)
Definition handleImageUpload (file : File) : Flow unit :=
  if negb (startsWith (f_type file) (js "image/"))
  then emit (Alert (js "Please upload a valid image file."))
  else
    _ ← modify (set_currentImage (Some file));
    _ ← modify showProcessingSection;
    tryCatch
      (preprocessedImage ← await env AtPreprocess (preprocessed env);
       processImageWithTesseract (default file preprocessedImage))
      (reportFailure env).

End Methods.
End MultiLang.

(* ===================================================================== *)
(** ** Vocabulary of the further statements                              *)
(* ===================================================================== *)

(** What [detectTypos] decides for a word of the given text: the correction
    and the tier of its candidate, if it pushes one. *)
Definition verdict `{Host} (this : TypoDetector) (text : jsstring)
    : option (JSValue * Tier) :=
  (fun c => (t_correction c, t_confidence c))
    <$> classifyWord this {| w_text := text; w_confidence := 0;
                             w_bbox := None |}.

(** The entry [(typo, fix_)] is the first of the table, in its order,
    whose key is in the cleaned or in the lower-cased form of the word. *)
Definition firstMatch `{Host} (table : list (jsstring * jsstring))
    (key text typo fix_ : jsstring) : Prop :=
  exists pre post,
    table = pre ++ (typo, fix_) :: post
    /\ Forall (fun e => includes key (fst e) = false
                        /\ includes (toLowerCase text) (fst e) = false) pre
    /\ (includes key typo = true \/ includes (toLowerCase text) typo = true).

(** The labels written beside the words (the text calls in the 16px font of
    [drawAnnotations]), with their positions, oldest first. *)
Definition labels (cs : list DrawCall) : list (jsstring * Z * Z) :=
  omap (fun c => match c with
                 | FillText text x y _ f _ =>
                     if bool_decide (f = "16px Arial"%string)
                     then Some (text, x, y) else None
                 | _ => None
                 end) cs.

(** The outline and the label a word is due when the layout is given the
    candidates of the classifier. *)
Definition outlineDue `{Host} (this : TypoDetector) (word : Word)
    : option (Z * Z * Z * Z * Z) :=
  (fun b => (x0 b, y0 b, width b, height b,
             if bool_decide (is_Some (verdict this (w_text word)))
             then 3 else 1)%Z)
    <$> w_bbox word.

Definition labelDue `{Host} (this : TypoDetector) (word : Word)
    : option (jsstring * Z * Z) :=
  match verdict this (w_text word), w_bbox word with
  | Some (correction, _), Some b =>
      Some ([0x2192; 0x20] ++ toStringValue correction, x0 b, (y0 b - 5)%Z)
  | _, _ => None
  end.

(** How each call of a layout is painted: a plain outline is green, one
    unit wide and translucent; everything else is opaque, a highlight being
    red or amber and three units wide, the outline of the legend dark and
    one unit wide. *)
Definition paintedAsDesigned (c : DrawCall) : Prop :=
  match c with
  | DrawImage _ _ => True
  | StrokeRect _ _ _ _ style lw alpha =>
      (style = "#28a745"%string /\ lw = 1%Z /\ alpha = 3 # 10)
      \/ ((style = "#dc3545"%string \/ style = "#ffc107"%string)
          /\ lw = 3%Z /\ alpha = 1%Q)
      \/ (style = "#333"%string /\ lw = 1%Z /\ alpha = 1%Q)
  | FillRect _ _ _ _ _ alpha => alpha = 1%Q
  | FillText _ _ _ _ _ alpha => alpha = 1%Q
  end.

(** The label [drawAnnotations] writes for a word that has a box and whose
    text is in the lookup. *)
Definition labelOf (typos : list Typo) (word : Word)
    : option (jsstring * Z * Z) :=
  match buildTypoMap typos !! w_text word, w_bbox word with
  | Some typo, Some b =>
      Some ([0x2192; 0x20] ++ toStringValue (t_correction typo),
            x0 b, (y0 b - 5)%Z)
  | _, _ => None
  end.

(** The drawing state between two words: opaque, and all that was painted
    is painted as designed. *)
Definition opaqueSoFar (ctx : Context2D) : Prop :=
  globalAlpha ctx = 1%Q /\ Forall paintedAsDesigned (calls ctx).

(* ===================================================================== *)
(** ** Vocabulary of the statements on uploads                           *)
(* ===================================================================== *)

(** [hoare P m Q X]: from a state in [P], the run of [m] that returns [a]
    ends in a state in [Q a]; a run that throws, or never ends, leaves a
    state in [X]. *)
Definition hoare {A : Type} (P : Page -> Prop) (m : Flow A)
    (Q : A -> Page -> Prop) (X : Page -> Prop) : Prop :=
  forall st, P st ->
    match m st with
    | (Returned a, st') => Q a st'
    | (_, st') => X st'
    end.

(** A run that keeps an invariant of the state, however it ends. *)
Definition keeps {A : Type} (I : Page -> Prop) (m : Flow A) : Prop :=
  hoare I m (fun _ => I) I.

(** The events of a state are those of [evs0] followed by events that
    [ok] accepts. *)
Definition grownBy (ok : Event -> Prop) (evs0 : list Event) (st : Page)
    : Prop :=
  exists evs, events st = evs0 ++ evs /\ Forall ok evs.

(** Since the events [evs0] and the results [r0], only events that [ok]
    accepts have happened, and no other results have been stored. *)
Definition within (ok : Event -> Prop) (evs0 : list Event)
    (r0 : option OCRResults) (st : Page) : Prop :=
  grownBy ok evs0 st
  /\ (ocrResults (held st) = r0 \/ ocrResults (held st) = None).

(** The same, with the cancellation flag up if [c] says so. *)
Definition withinCancelled (ok : Event -> Prop) (evs0 : list Event)
    (r0 : option OCRResults) (c : bool) (st : Page) : Prop :=
  within ok evs0 r0 st /\ (c = true -> processingCancelled st = true).

(** The events of an upload that comes to nothing: a message, a question,
    the end of a worker. *)
Definition isQuiet (e : Event) : Prop :=
  match e with
  | Alert _ | Confirm | Terminate _ => True
  | _ => False
  end.

(** The events that bring no results to the screen. *)
Definition notShown (e : Event) : Prop :=
  match e with
  | ShowResultsLater _ => False
  | _ => True
  end.

(** *** A page, an image and an engine for the instances *)

Definition photo : File :=
  {| f_name := js "essay.png"; f_size := 204800; f_type := js "image/png" |}.

Definition freshPage : Page :=
  {| held := {| ocrResults := None |};
     currentImage := None;
     currentWorker := None;
     processingCancelled := false;
     processingVisible := false;
     resultsVisible := false;
     events := [] |}.

(** The engine reads "teh cat" at 90 percent. *)
Definition tehCat : TesseractData :=
  {| td_text := js "teh cat";
     td_words :=
       Some [ {| tw_text := js "teh"; tw_confidence := 90;
                 tw_bbox := Some (mkTesseractBBox 10 20 50 40) |};
              {| tw_text := js "cat"; tw_confidence := 90;
                 tw_bbox := Some (mkTesseractBBox 60 20 100 40) |} ];
     td_confidence := 90 |}.

(** What the normalizer makes of it. *)
Definition tehCatResults : OCRResults :=
  {| r_text := js "teh cat";
     r_words :=
       WArray [ {| w_text := js "teh"; w_confidence := 90 / 100;
                   w_bbox := Some (mkBBox 10 20 50 40 40 20) |};
                {| w_text := js "cat"; w_confidence := 90 / 100;
                   w_bbox := Some (mkBBox 60 20 100 40 40 20) |} ];
     r_confidence := 90 / 100;
     r_word_count := 2 |}.

(** A browser and an engine where every wait ends well, with the language
    selected, the global [worker] and the waits during which the user
    cancels left open. *)
Definition calmEnv (lang : jsstring) (worker : option Worker)
    (cancelled : Point -> bool) : Env :=
  {| confirmAnswer := true;
     globalWorker := worker;
     selectedLanguage := lang;
     settled := fun _ => Returned tt;
     preprocessed := Returned (Some photo);
     recognized := Returned tehCat;
     retryRecognized := Returned tehCat;
     cancelDuring := cancelled;
     typeErrorMessage := js "Cannot read properties of null";
     referenceErrorMessage := js "worker is not defined" |}.

Definition never (p : Point) : bool := false.

Definition duringRecognition (p : Point) : bool :=
  match p with
  | AtRecognize => true
  | _ => false
  end.

(* ===================================================================== *)
(** ** A host for text in ASCII, Latin-1 and caseless scripts            *)
(* ===================================================================== *)

Ltac split_tests :=
  repeat (match goal with
          | |- context [N.leb ?a ?b] => destruct (N.leb_spec a b)
          | |- context [N.eqb ?a ?b] => destruct (N.eqb_spec a b)
          end; simpl; try lia; try reflexivity).

Lemma lowerUnit_word_chars (c : N) :
  List.filter isWordChar (lowerUnit c) = keyUnit c.
Proof.
  unfold lowerUnit, keyUnit, isWordChar, isUpperAscii, isLowerAscii, isDigit.
  split_tests.
Qed.

Lemma filter_flat_map {A B : Type} (p : B -> bool) (f : A -> list B) l :
  List.filter p (flat_map f l) = flat_map (fun a => List.filter p (f a)) l.
Proof.
  induction l as [|a l IH]; simpl; [reflexivity|].
  rewrite List.filter_app, IH. reflexivity.
Qed.

Lemma lowerUnits_word_chars (s : jsstring) :
  List.filter isWordChar (lowerUnits s) = asciiKey s.
Proof.
  unfold lowerUnits, asciiKey. rewrite filter_flat_map.
  induction s as [|c s IH]; simpl; [reflexivity|].
  rewrite lowerUnit_word_chars, IH. reflexivity.
Qed.

Lemma lowerUnit_nonempty (c : N) : lowerUnit c <> [].
Proof.
  unfold lowerUnit.
  repeat match goal with |- context [if ?b then _ else _] => destruct b end;
    discriminate.
Qed.

Lemma lowerUnits_nonempty (s : jsstring) : lowerUnits s = [] -> s = [].
Proof.
  destruct s as [|c s]; [reflexivity|]. unfold lowerUnits. simpl. intros E.
  apply app_eq_nil in E as [E _]. now apply lowerUnit_nonempty in E.
Qed.

#[export] Instance basicHost : Host :=
  {| toLowerCase := lowerUnits;
     toLowerCase_word_chars := lowerUnits_word_chars;
     toLowerCase_nonempty := lowerUnits_nonempty |}.

(* ===================================================================== *)
(** ** The classifier                                                    *)
(* ===================================================================== *)

Section ClassifierFacts.
Context `{Host}.

Lemma cleanWord_asciiKey (s : jsstring) : cleanWord s = asciiKey s.
Proof. apply toLowerCase_word_chars. Qed.

Lemma cleanWord_word_chars (s : jsstring) :
  Forall (fun c => isWordChar c = true) (cleanWord s).
Proof.
  unfold cleanWord. induction (toLowerCase s) as [|c l IH]; simpl.
  - constructor.
  - destruct (isWordChar c) eqn:E; [constructor|]; assumption.
Qed.

Lemma detectTypos_array (this : TypoDetector) (r : OCRResults) ws :
  r_words r = WArray ws ->
  detectTypos this (Some r) = Ok (omap (classifyWord this) ws).
Proof. intros E. unfold detectTypos. rewrite E. reflexivity. Qed.

Lemma dictionaryStage_tier this key text c t :
  dictionaryStage this key text = (c, t) ->
  t = high \/ (c = None /\ t = low).
Proof.
  unfold dictionaryStage.
  destruct (truthyOpt _); [|destruct (partialMatch _ _ _)];
    intros [= <- <-]; auto.
Qed.

Lemma heuristicStage_tier this key text st c t :
  heuristicStage this key text st = (c, t) ->
  (fst st = c /\ snd st = t) \/ t = medium.
Proof.
  destruct st as [c0 t0]. unfold heuristicStage.
  repeat match goal with
         | |- context [if ?b then _ else _] => destruct b
         end; intros [= <- <-]; auto.
Qed.

(** What one iteration pushes never has the tier [low]. *)
Lemma classifyWord_tier this w c :
  classifyWord this w = Some c ->
  t_confidence c = high \/ t_confidence c = medium.
Proof.
  unfold classifyWord.
  destruct (length _ <? 2)%nat; [discriminate|].
  destruct (dictionaryStage this _ _) as [c0 t0] eqn:D.
  destruct (heuristicStage this _ _ _) as [c1 t1] eqn:E.
  apply dictionaryStage_tier in D. apply heuristicStage_tier in E.
  destruct c1 as [v|]; [|discriminate].
  destruct (truthy v); [|discriminate].
  intros [= <-]. simpl in *.
  destruct E as [[-> ->] | ->]; [|now right].
  destruct D as [-> | [D _]]; [now left | discriminate].
Qed.

Lemma countTier_zero (t : Tier) (typos : list Typo) :
  Forall (fun c => t_confidence c <> t) typos -> countTier t typos = 0%nat.
Proof.
  unfold countTier. induction 1 as [|c l Hc _ IH]; simpl; [reflexivity|].
  rewrite bool_decide_eq_false_2 by assumption. exact IH.
Qed.

Lemma omap_classifyWord_tier this ws :
  Forall (fun c => t_confidence c = high \/ t_confidence c = medium)
         (omap (classifyWord this) ws).
Proof.
  induction ws as [|w ws IH]; simpl; [constructor|].
  destruct (classifyWord this w) as [c|] eqn:E; [|exact IH].
  constructor; [|exact IH]. eapply classifyWord_tier, E.
Qed.

(** C10.  When the result object given to [detectTypos] has no [words]
    field ([undefined]), or a [words] field that is not an array ([null], a
    string, a number), the call returns the empty candidate sequence and
    does not throw. *)
Theorem detectTypos_without_word_array (this : TypoDetector)
    (r : OCRResults) :
  isArray (r_words r) = false -> detectTypos this (Some r) = Ok [].
Proof.
  intros E. unfold detectTypos.
  destruct (r_words r); try discriminate; simpl;
    repeat match goal with
           | |- context [if ?b then _ else _] => destruct b
           end; reflexivity.
Qed.

(** C9.  Every candidate [detectTypos] returns has tier [high] or
    [medium], none has tier [low], and [getTypoStats] counts no
    low-confidence candidate in what [detectTypos] returns. *)
Theorem detectTypos_never_low (this : TypoDetector)
    (ocr : option OCRResults) (typos : list Typo) :
  detectTypos this ocr = Ok typos ->
  Forall (fun c => t_confidence c = high \/ t_confidence c = medium) typos
  /\ Forall (fun c => t_confidence c <> low) typos
  /\ low_confidence (getTypoStats typos) = 0%nat.
Proof.
  intros E.
  assert (T : Forall (fun c => t_confidence c = high \/ t_confidence c = medium)
                     typos).
  { destruct ocr as [r|]; [|discriminate]. unfold detectTypos in E.
    destruct (negb _ || negb _).
    - injection E as <-. constructor.
    - destruct (r_words r); injection E as <-;
        try constructor. apply omap_classifyWord_tier. }
  assert (L : Forall (fun c => t_confidence c <> low) typos).
  { eapply Forall_impl; [exact T|]. intros c [-> | ->]; discriminate. }
  repeat split; try assumption.
  simpl. apply countTier_zero, L.
Qed.

Lemma getProperty_own (table : list (jsstring * jsstring)) key v :
  assoc key table = Some v -> getProperty table key = Some (VString v).
Proof. intros E. unfold getProperty. rewrite E. reflexivity. Qed.

Lemma englishTable_entry key v :
  assoc key englishTable = Some v -> (2 <= length key)%nat /\ v <> [].
Proof.
  unfold assoc, englishTable. simpl.
  repeat match goal with
         | |- context [strictEq ?k key] =>
             unfold strictEq at 1; case_bool_decide as E;
             [ subst key; simpl; intros [= <-]; split;
               [ vm_compute; lia | discriminate ]
             | clear E ]
         end.
  discriminate.
Qed.

(** A word whose key is an own entry of the table with a non-empty value. *)
Lemma classifyWord_exact this w v :
  assoc (cleanWord (w_text w)) (typoCorrections this) = Some v ->
  v <> [] ->
  (2 <= length (cleanWord (w_text w)))%nat ->
  classifyWord this w = Some (candidate w (VString v) high).
Proof.
  intros E Hv Hlen. unfold classifyWord.
  destruct (Nat.ltb_spec (length (cleanWord (w_text w))) 2) as [L|_]; [lia|].
  unfold dictionaryStage. rewrite (getProperty_own _ _ _ E).
  destruct v as [|c v]; [contradiction|]. reflexivity.
Qed.

Lemma omap_middle {A B : Type} (f : A -> option B) pre x post :
  omap f (pre ++ x :: post)
  = omap f pre ++ from_option (fun b => [b]) [] (f x) ++ omap f post.
Proof.
  rewrite omap_app. f_equal. simpl. destruct (f x); reflexivity.
Qed.

(** C7.  A word whose cleaned key is a key of the English correction table
    gives a candidate of tier [high] whose correction is the table's value
    for that key, at the word's place in the candidate sequence. *)
Theorem exact_match_is_high (r : OCRResults) (pre post : list Word)
    (w : Word) (v : jsstring) :
  r_words r = WArray (pre ++ w :: post) ->
  assoc (cleanWord (w_text w)) englishTable = Some v ->
  classifyWord newTypoDetector w = Some (candidate w (VString v) high)
  /\ detectTypos newTypoDetector (Some r)
     = Ok (omap (classifyWord newTypoDetector) pre
           ++ candidate w (VString v) high
           :: omap (classifyWord newTypoDetector) post).
Proof.
  intros Hr E.
  assert (C : classifyWord newTypoDetector w
              = Some (candidate w (VString v) high)).
  { destruct (englishTable_entry _ _ E) as [Hlen Hv].
    now apply classifyWord_exact. }
  split; [exact C|].
  rewrite (detectTypos_array _ _ _ Hr), omap_middle, C. reflexivity.
Qed.

(** C2, as amended.  A word that reaches the unknown-word heuristic gives a
    candidate of tier [medium], with the lower-cased repair as correction,
    when the repair differs from the word; when the repair is the word
    itself it gives no candidate at all. *)
Theorem heuristic_flags_only_repaired (this : TypoDetector) (r : OCRResults)
    (pre post : list Word) (w : Word) :
  r_words r = WArray (pre ++ w :: post) ->
  reachesHeuristic this w = true ->
  let repaired := repair (w_text w) in
  let emitted :=
    if strictEq repaired (w_text w) then None
    else Some (candidate w (VString (toLowerCase repaired)) medium) in
  classifyWord this w = emitted
  /\ detectTypos this (Some r)
     = Ok (omap (classifyWord this) pre
           ++ from_option (fun c => [c]) [] emitted
           ++ omap (classifyWord this) post).
Proof.
  intros Hr Hreach repaired emitted.
  assert (C : classifyWord this w = emitted).
  { unfold reachesHeuristic in Hreach.
    apply andb_prop in Hreach as [Hreach Hsus].
    apply andb_prop in Hreach as [Hreach Hlen].
    apply andb_prop in Hreach as [Hdict Hcommon].
    unfold classifyWord.
    apply Nat.ltb_lt in Hlen as Hlen'.
    destruct (Nat.ltb_spec (length (cleanWord (w_text w))) 2) as [L|_]; [lia|].
    destruct (dictionaryStage this _ _) as [c0 t0].
    simpl in Hdict. unfold heuristicStage.
    rewrite Hdict, Hcommon, Hlen, Hsus. simpl.
    subst emitted repaired.
    destruct (strictEq (repair (w_text w)) (w_text w)) eqn:Q; simpl.
    - destruct c0 as [v|]; [|reflexivity].
      simpl in Hdict. apply negb_true_iff in Hdict. now rewrite Hdict.
    - destruct (toLowerCase (repair (w_text w))) eqn:L; [|reflexivity].
      apply toLowerCase_nonempty in L. unfold repair, replaceAll in L.
      repeat apply map_eq_nil in L. rewrite L in Hsus. discriminate. }
  split; [exact C|].
  rewrite (detectTypos_array _ _ _ Hr), omap_middle, C. reflexivity.
Qed.

Lemma cjkEntries_no_key (e : jsstring * jsstring) :
  In e cjkEntries ->
  asciiKey (fst e) = [] /\ exists c k, fst e = c :: k /\ isWordChar c = false.
Proof.
  unfold cjkEntries, chineseTable, chineseTableIntended. simpl.
  intros HIn.
  repeat (destruct HIn as [<- | HIn];
          [ split; [reflexivity | eexists _, _; split; reflexivity] | ]).
  contradiction.
Qed.

Lemma classifyWord_short this w :
  (length (asciiKey (w_text w)) < 2)%nat -> classifyWord this w = None.
Proof.
  intros L. unfold classifyWord. rewrite cleanWord_asciiKey.
  apply Nat.ltb_lt in L. now rewrite L.
Qed.

(** C4, as amended.  The lookups of the classifier read the English table
    only: replacing the second table changes no result; a cleaned key, made
    of [a-z0-9_] alone, never equals a key of the second table; and a word
    whose text is such a key has an empty cleaned key and gives no
    candidate. *)
Theorem cjk_table_not_consulted (this : TypoDetector)
    (other : list (jsstring * jsstring)) (ocr : option OCRResults)
    (s : jsstring) (w : Word) (e : jsstring * jsstring) :
  In e cjkEntries ->
  w_text w = fst e ->
  detectTypos {| typoCorrections := typoCorrections this;
                 chineseTypoCorrections := other;
                 commonWords := commonWords this |} ocr
  = detectTypos this ocr
  /\ cleanWord s <> fst e
  /\ cleanWord (w_text w) = []
  /\ classifyWord this w = None.
Proof.
  intros HIn Hw.
  destruct (cjkEntries_no_key e HIn) as [K (c & k & Hk & Hc)].
  repeat split.
  - intros Heq. pose proof (cleanWord_word_chars s) as F.
    rewrite Heq, Hk in F. inversion F as [|? ? Hc' _]; subst. congruence.
  - rewrite cleanWord_asciiKey, Hw. exact K.
  - apply classifyWord_short. rewrite Hw, K. simpl. lia.
Qed.

Lemma find_some_nonempty_value key text fix_ :
  partialMatch englishTable key text = Some fix_ -> fix_ <> [].
Proof.
  unfold partialMatch. intros E.
  destruct (List.find _ englishTable) as [[k v]|] eqn:F; [|discriminate].
  injection E as <-. apply List.find_some in F as [HIn _]. simpl.
  unfold englishTable in HIn. simpl in HIn.
  repeat (destruct HIn as [[= <- <-] | HIn]; [discriminate|]).
  contradiction.
Qed.

(** X1.  A word whose cleaned key has fewer than two characters gives no
    candidate, whatever the tables hold. *)
Theorem short_key_not_flagged (this : TypoDetector) (r : OCRResults)
    (pre post : list Word) (w : Word) :
  r_words r = WArray (pre ++ w :: post) ->
  (length (cleanWord (w_text w)) < 2)%nat ->
  classifyWord this w = None
  /\ detectTypos this (Some r)
     = Ok (omap (classifyWord this) pre ++ omap (classifyWord this) post).
Proof.
  intros Hr L.
  assert (C : classifyWord this w = None).
  { unfold classifyWord. apply Nat.ltb_lt in L. now rewrite L. }
  split; [exact C|].
  rewrite (detectTypos_array _ _ _ Hr), omap_middle, C. reflexivity.
Qed.

(** The loop over the entries stops at the first entry, in the order of
    the table, whose key is in one of the two forms of the word. *)
Lemma partialMatch_first (pre post : list (jsstring * jsstring))
    (typo fix_ key text : jsstring) :
  Forall (fun e => includes key (fst e) = false
                   /\ includes (toLowerCase text) (fst e) = false) pre ->
  includes key typo = true \/ includes (toLowerCase text) typo = true ->
  partialMatch (pre ++ (typo, fix_) :: post) key text = Some fix_.
Proof.
  intros Hpre Hin. unfold partialMatch.
  induction Hpre as [|e pre [E1 E2] _ IH]; cbn [app List.find fst].
  - replace (includes key typo || includes (toLowerCase text) typo)
      with true; [reflexivity|].
    symmetry. apply orb_true_iff. exact Hin.
  - rewrite E1, E2. exact IH.
Qed.

(** X2.  A word whose cleaned key, of two characters or more, is no
    property of the English table (own or inherited), but which contains
    keys of the table, in its cleaned or in its lower-cased form, gives a
    candidate of tier [high] whose correction is that of the first such
    entry in the order of the table: the entries before it are those whose
    key is in neither form of the word. *)
Theorem substring_match_is_high (w : Word)
    (pre post : list (jsstring * jsstring)) (typo fix_ : jsstring) :
  (2 <= length (cleanWord (w_text w)))%nat ->
  getProperty englishTable (cleanWord (w_text w)) = None ->
  englishTable = pre ++ (typo, fix_) :: post ->
  Forall (fun e => includes (cleanWord (w_text w)) (fst e) = false
                   /\ includes (toLowerCase (w_text w)) (fst e) = false) pre ->
  includes (cleanWord (w_text w)) typo = true
  \/ includes (toLowerCase (w_text w)) typo = true ->
  classifyWord newTypoDetector w = Some (candidate w (VString fix_) high).
Proof.
  intros Hlen Hnone Htable Hpre Hin.
  assert (Hpart : partialMatch englishTable (cleanWord (w_text w)) (w_text w)
                  = Some fix_).
  { rewrite Htable. now apply partialMatch_first. }
  unfold classifyWord.
  destruct (Nat.ltb_spec (length (cleanWord (w_text w))) 2) as [L|_]; [lia|].
  unfold dictionaryStage. simpl typoCorrections. rewrite Hnone, Hpart.
  apply find_some_nonempty_value in Hpart.
  destruct fix_ as [|c v]; [contradiction|]. reflexivity.
Qed.

End ClassifierFacts.

(** *** The method on its store *)

Lemma run_two (class : N -> bool) (s : jsstring) :
  (2 <=? run class s)%nat
  = match s with
    | c :: d :: _ => class c && class d
    | _ => false
    end.
Proof.
  destruct s as [|c [|d t]]; simpl; [reflexivity| |].
  - destruct (class c); reflexivity.
  - destruct (class c); [|reflexivity]. destruct (class d); reflexivity.
Qed.

Lemma run_one (class : N -> bool) (s : jsstring) :
  (1 <=? run class s)%nat
  = match s with
    | c :: _ => class c
    | _ => false
    end.
Proof.
  destruct s as [|c t]; simpl; [reflexivity|]. destruct (class c); reflexivity.
Qed.

(** Without the [g] flag, [test] is the predicate [suspiciousPatterns]. *)
Lemma exec_suspiciousPatterns (s : jsstring) :
  match exec true s with Some _ => true | None => false end
  = suspiciousPatterns s.
Proof.
  induction s as [|c t IH]; [reflexivity|].
  cbn [exec suspiciousPatterns].
  rewrite run_one, !run_two, <- IH.
  change (oneEll true) with isOneEll. change (zeroOh true) with isZeroOh.
  generalize (exec true t) as o. intros o.
  destruct (isPipe c); [reflexivity|]. cbn [orb].
  destruct t as [|d t'].
  - rewrite !andb_false_r. now destruct o.
  - destruct (isOneEll c && isOneEll d); [reflexivity|]. cbn [orb].
    destruct (isZeroOh c && isZeroOh d); [reflexivity|]. now destruct o.
Qed.

(** With the [g] flag an expression remembers where its last match
    ended: tested twice on the word "he11o" it answers yes, then no.  The
    expression of [detectTypos] has no such flag. *)
Lemma test_with_g_flag_remembers :
  let st := mkStore newTypoDetector None [mkRegExp true true 0] [] in
  fst (test 0 (js "he11o") st) = Ok true
  /\ regexps (snd (test 0 (js "he11o") st)) = [mkRegExp true true 4]
  /\ fst (test 0 (js "he11o") (snd (test 0 (js "he11o") st))) = Ok false.
Proof. repeat split; vm_compute; reflexivity. Qed.

Section OnStoreFacts.
Context `{Host}.

Lemma Method_bind_run {A B : Type} (m : Method A) (k : A -> Method B)
    (st st' : Store) (a : A) :
  m st = (Ok a, st') -> (x ← m; k x) st = k a st'.
Proof. intros E. unfold mbind, Method_bind. now rewrite E. Qed.

Lemma withRegExps_0 (st : Store) : withRegExps 0 st = st.
Proof.
  destruct st. unfold withRegExps, set_regexps. simpl. now rewrite app_nil_r.
Qed.

Lemma dictionaryStage_run (key text : jsstring) (st : Store) :
  OnStore.dictionaryStage key text st
  = (Ok (dictionaryStage (receiver st) key text), st).
Proof.
  unfold OnStore.dictionaryStage, dictionaryStage.
  erewrite Method_bind_run by reflexivity.
  destruct (truthyOpt _); reflexivity.
Qed.

(** The expression made for a word is tested once, and is as it was made
    when the turn ends. *)
Lemma heuristicStage_run (key text : jsstring) found (st : Store) :
  exists k,
    OnStore.heuristicStage key text found st
    = (Ok (heuristicStage (receiver st) key text found), withRegExps k st).
Proof.
  destruct found as [c t].
  unfold OnStore.heuristicStage, heuristicStage.
  destruct (negb (truthyOpt c)); cbn [andb];
    [|exists 0%nat; now rewrite withRegExps_0].
  erewrite Method_bind_run by reflexivity.
  destruct (negb (bool_decide _));
    [|exists 0%nat; now rewrite withRegExps_0].
  destruct (4 <? length key)%nat;
    [|exists 0%nat; now rewrite withRegExps_0].
  exists 1%nat.
  erewrite Method_bind_run by reflexivity.
  assert (T : test (length (regexps st)) text
                (set_regexps (fun l => l ++ [mkRegExp false true 0]) st)
              = (Ok (suspiciousPatterns text), withRegExps 1 st)).
  { unfold test, set_regexps. cbn [regexps].
    rewrite lookup_app_r, Nat.sub_diag by lia.
    cbn [lookup list_lookup global ignoreCase].
    now rewrite exec_suspiciousPatterns. }
  erewrite Method_bind_run by exact T.
  destruct (suspiciousPatterns text); [|reflexivity].
  destruct (negb (strictEq (repair text) text)); reflexivity.
Qed.

(** One turn of the loop appends the candidate of [classifyWord], if there
    is one, to the array [typos]. *)
Lemma detectTypos_word_run (typos : nat) (w : Word) (st : Store) l :
  arrays st !! typos = Some l ->
  exists k,
    OnStore.detectTypos_word typos w st
    = (Ok tt,
       withRegExps k
         (set_arrays
            (fun a => <[typos := l ++ from_option (fun c => [c]) []
                                   (classifyWord (receiver st) w)]> a) st)).
Proof.
  intros Hl.
  assert (Id : forall l', l' = l ->
             set_arrays (fun a => <[typos := l']> a) st = st).
  { intros l' ->. destruct st. unfold set_arrays. simpl in *.
    now rewrite list_insert_id. }
  unfold OnStore.detectTypos_word, classifyWord.
  destruct (length (cleanWord (w_text w)) <? 2)%nat.
  { exists 0%nat. rewrite withRegExps_0, Id; [reflexivity|apply app_nil_r]. }
  erewrite Method_bind_run by apply dictionaryStage_run.
  destruct (heuristicStage_run (cleanWord (w_text w)) (w_text w)
              (dictionaryStage (receiver st) (cleanWord (w_text w)) (w_text w))
              st) as [k Hk].
  erewrite Method_bind_run by exact Hk.
  exists k.
  destruct (heuristicStage _ _ _ _) as [c t].
  assert (Skip : (mret tt : Method unit) (withRegExps k st)
                 = (Ok tt,
                    withRegExps k
                      (set_arrays (fun a => <[typos := l ++ []]> a) st))).
  { rewrite Id by apply app_nil_r. reflexivity. }
  destruct c as [v|]; [|exact Skip].
  destruct (truthy v); [|exact Skip].
  unfold push. cbn [withRegExps set_regexps arrays]. rewrite Hl. reflexivity.
Qed.

Lemma forOf_detectTypos_word_run (typos : nat) (ws : list Word) :
  forall (st : Store) l,
    arrays st !! typos = Some l ->
    exists k,
      forOf ws (OnStore.detectTypos_word typos) st
      = (Ok tt,
         withRegExps k
           (set_arrays
              (fun a =>
                 <[typos := l ++ omap (classifyWord (receiver st)) ws]> a)
              st)).
Proof.
  induction ws as [|w ws IH]; intros st l Hl.
  - exists 0%nat. rewrite withRegExps_0. cbn [forOf omap list_omap].
    destruct st. unfold set_arrays. simpl in *.
    now rewrite app_nil_r, list_insert_id.
  - destruct (detectTypos_word_run typos w st l Hl) as [j Hj].
    cbn [forOf]. erewrite Method_bind_run by exact Hj.
    set (c := from_option (fun c => [c]) []
                (classifyWord (receiver st) w)) in *.
    set (st1 := withRegExps j _).
    assert (Hl1 : arrays st1 !! typos = Some (l ++ c)).
    { subst st1. cbn [withRegExps set_regexps set_arrays arrays].
      apply list_lookup_insert_eq, (lookup_lt_Some _ _ _ Hl). }
    destruct (IH st1 (l ++ c) Hl1) as [k Hk]. rewrite Hk.
    exists (j + k)%nat. f_equal. subst st1 c.
    unfold withRegExps, set_regexps, set_arrays. cbn.
    rewrite list_insert_insert_eq, replicate_add, !app_assoc.
    do 2 f_equal. rewrite <- (app_assoc l). f_equal.
    now destruct (classifyWord (receiver st) w).
Qed.

(** What a call does to a store: it adds the array it returns, which holds
    the candidates of [detectTypos] (or stays empty when the call throws),
    and regular expressions; nothing else. *)
Lemma detectTypos_run (st : Store) :
  exists k,
    OnStore.detectTypos st
    = (match detectTypos (receiver st) (argument st) with
       | Ok _ => Ok (length (arrays st))
       | Throw e => Throw e
       end,
       withRegExps k
         (set_arrays
            (fun a => a ++ [match detectTypos (receiver st) (argument st) with
                            | Ok l => l
                            | Throw _ => []
                            end]) st)).
Proof.
  unfold OnStore.detectTypos, detectTypos.
  erewrite Method_bind_run by reflexivity.
  unfold ocrResults_words.
  destruct (argument st) as [r|] eqn:Ha.
  2:{ exists 0%nat. rewrite withRegExps_0. unfold mbind, Method_bind.
      cbn [set_arrays argument]. rewrite Ha. reflexivity. }
  unfold mbind at 1, Method_bind at 1. cbn [set_arrays argument]. rewrite Ha.
  destruct (negb (truthyWords (r_words r)) || negb (isArray (r_words r)));
    [exists 0%nat; rewrite withRegExps_0; reflexivity|].
  destruct (r_words r) as [| | | |ws];
    try (exists 0%nat; rewrite withRegExps_0; reflexivity).
  set (st0 := set_arrays _ st).
  assert (H0 : arrays st0 !! length (arrays st) = Some []).
  { subst st0. cbn [set_arrays arrays].
    now rewrite lookup_app_r, Nat.sub_diag by lia. }
  destruct (forOf_detectTypos_word_run (length (arrays st)) ws st0 [] H0)
    as [k Hk].
  exists k. erewrite Method_bind_run by exact Hk.
  unfold mret, Method_ret. f_equal.
  subst st0. unfold withRegExps, set_regexps, set_arrays. cbn.
  do 2 f_equal.
  rewrite insert_app_r_alt, Nat.sub_diag by lia. reflexivity.
Qed.

Lemma preserved_run (k : nat) (l : list Typo) (st : Store) :
  preserved st (withRegExps k (set_arrays (fun a => a ++ [l]) st)).
Proof.
  repeat split; cbn; apply prefix_app_r; reflexivity.
Qed.

(** C8.  A call of [detectTypos] changes no object that was there before
    it: not the detector, not the result object given, no array and no
    regular expression; the array it returns is a new one.  So after two
    calls on the same result object, the second array holds the same
    candidates as the first, element for element, and they are the
    candidates of [detectTypos] (or both calls have thrown the same
    exception). *)
Theorem detectTypos_twice (st : Store) :
  let first := OnStore.detectTypos st in
  let second := OnStore.detectTypos (snd first) in
  preserved st (snd first)
  /\ preserved (snd first) (snd second)
  /\ (forall array, fst first = Ok array -> fst second <> Ok array)
  /\ returned (snd second) (fst first)
     = Some (detectTypos (receiver st) (argument st))
  /\ returned (snd second) (fst second) = returned (snd second) (fst first).
Proof.
  intros first second.
  destruct (detectTypos_run st) as [j Hj].
  set (st1 := withRegExps j _) in Hj.
  destruct (detectTypos_run st1) as [k Hk].
  set (st2 := withRegExps k _) in Hk.
  change (receiver st1) with (receiver st) in *.
  change (argument st1) with (argument st) in *.
  assert (L1 : arrays st1
               = arrays st
                 ++ [match detectTypos (receiver st) (argument st) with
                     | Ok l => l
                     | Throw _ => []
                     end]) by reflexivity.
  assert (L2 : arrays st2
               = arrays st1
                 ++ [match detectTypos (receiver st) (argument st) with
                     | Ok l => l
                     | Throw _ => []
                     end]) by reflexivity.
  assert (P1 : preserved st st1) by apply preserved_run.
  assert (P2 : preserved st1 st2) by apply preserved_run.
  clearbody st1 st2.
  subst second. subst first. rewrite Hj. cbn [fst snd]. rewrite Hk.
  cbn [fst snd].
  split; [exact P1|]. split; [exact P2|].
  destruct (detectTypos (receiver st) (argument st)) as [l|e].
  - split; [intros array [= <-] [= E]; rewrite L1, length_app in E;
            change (length [l]) with 1%nat in E; lia|].
    assert (F : arrays st2 !! length (arrays st) = Some l).
    { rewrite L2, lookup_app_l by (rewrite L1, length_app; simpl; lia).
      now rewrite L1, lookup_app_r, Nat.sub_diag by lia. }
    assert (S : arrays st2 !! length (arrays st1) = Some l).
    { now rewrite L2, lookup_app_r, Nat.sub_diag by lia. }
    cbn [returned]. rewrite F, S. split; reflexivity.
  - split; [discriminate|]. split; reflexivity.
Qed.

End OnStoreFacts.

(** *** Instances on concrete words *)

Lemma detectTypos_without_word_array_witness :
  detectTypos newTypoDetector
    (Some {| r_text := js "teh cat"; r_words := WUndefined;
             r_confidence := 9 # 10; r_word_count := 0 |})
  = Ok [].
Proof.
  apply (@detectTypos_without_word_array basicHost newTypoDetector).
  reflexivity.
Defined.

Lemma detectTypos_never_low_witness :
  let typos := [ candidate (wordOf (js "teh")) (VString (js "the")) high;
                 candidate (wordOf (js "he11o")) (VString (js "hello")) medium ]
  in
  Forall (fun c => t_confidence c = high \/ t_confidence c = medium) typos
  /\ Forall (fun c => t_confidence c <> low) typos
  /\ low_confidence (getTypoStats typos) = 0%nat.
Proof.
  apply (@detectTypos_never_low basicHost newTypoDetector
           (Some (resultOf [ wordOf (js "teh"); wordOf (js "balloon");
                             wordOf (js "he11o") ]))).
  vm_compute. reflexivity.
Defined.

(** The word "teh" gives the candidate (teh, the, high). *)
Lemma exact_match_is_high_witness :
  classifyWord newTypoDetector (wordOf (js "teh"))
  = Some {| t_original := js "teh"; t_correction := VString (js "the");
            t_confidence := high;
            t_bbox := Some (mkBBox 10 20 50 40 40 20);
            t_position := (10, 20)%Z |}
  /\ detectTypos newTypoDetector (Some (resultOf [wordOf (js "teh")]))
     = Ok [ {| t_original := js "teh"; t_correction := VString (js "the");
               t_confidence := high;
               t_bbox := Some (mkBBox 10 20 50 40 40 20);
               t_position := (10, 20)%Z |} ].
Proof.
  apply (@exact_match_is_high basicHost (resultOf [wordOf (js "teh")])
           [] [] (wordOf (js "teh")) (js "the")); reflexivity.
Defined.

(** C2, the claim as stated fails: "balloon" reaches the heuristic (seven
    characters, not a common word, no dictionary entry in it, "ll" and "oo"
    match the pattern), its repair is "balloon" itself, and no candidate is
    returned for it. *)
Lemma balloon_reaches_heuristic_unflagged :
  reachesHeuristic newTypoDetector (wordOf (js "balloon")) = true
  /\ repair (js "balloon") = js "balloon"
  /\ detectTypos newTypoDetector (Some (resultOf [wordOf (js "balloon")]))
     = Ok [].
Proof. repeat split; vm_compute; reflexivity. Qed.

Lemma heuristic_flags_only_repaired_witness :
  classifyWord newTypoDetector (wordOf (js "he11o"))
  = Some (candidate (wordOf (js "he11o")) (VString (js "hello")) medium)
  /\ detectTypos newTypoDetector
       (Some (resultOf [wordOf (js "balloon"); wordOf (js "he11o")]))
     = Ok [candidate (wordOf (js "he11o")) (VString (js "hello")) medium].
Proof.
  apply (@heuristic_flags_only_repaired basicHost newTypoDetector
           (resultOf [wordOf (js "balloon"); wordOf (js "he11o")])
           [wordOf (js "balloon")] [] (wordOf (js "he11o")));
    vm_compute; reflexivity.
Defined.

(** C4, the claim as stated fails: a word whose text is the first key of
    the second table, in the form stored in the source file or as the
    ideograph U+7684 it stands for, gives no candidate. *)
Lemma cjk_entry_not_flagged :
  In ([0xC1; 0xF6; 0xD1], [0xC2; 0xFA; 0x221E])
     (chineseTypoCorrections newTypoDetector)
  /\ detectTypos newTypoDetector
       (Some (resultOf [wordOf [0xC1; 0xF6; 0xD1]])) = Ok []
  /\ detectTypos newTypoDetector (Some (resultOf [wordOf [0x7684]])) = Ok [].
Proof. repeat split; [now left | vm_compute; reflexivity ..]. Qed.

Lemma cjk_table_not_consulted_witness :
  detectTypos {| typoCorrections := englishTable;
                 chineseTypoCorrections := [];
                 commonWords := list_to_set commonWordList |}
    (Some (resultOf [wordOf [0x7684]; wordOf (js "teh")]))
  = detectTypos newTypoDetector
      (Some (resultOf [wordOf [0x7684]; wordOf (js "teh")]))
  /\ cleanWord (js "teh") <> [0x7684]
  /\ cleanWord [0x7684] = []
  /\ classifyWord newTypoDetector (wordOf [0x7684]) = None.
Proof.
  apply (@cjk_table_not_consulted basicHost newTypoDetector []
           (Some (resultOf [wordOf [0x7684]; wordOf (js "teh")]))
           (js "teh") (wordOf [0x7684]) ([0x7684], [0x5730])).
  - vm_compute. tauto.
  - reflexivity.
Defined.

Lemma short_key_not_flagged_witness :
  classifyWord newTypoDetector (wordOf (js "I,")) = None
  /\ detectTypos newTypoDetector
       (Some (resultOf [wordOf (js "teh"); wordOf (js "I,")]))
     = Ok [candidate (wordOf (js "teh")) (VString (js "the")) high].
Proof.
  apply (@short_key_not_flagged basicHost newTypoDetector
           (resultOf [wordOf (js "teh"); wordOf (js "I,")])
           [wordOf (js "teh")] [] (wordOf (js "I,")));
    [reflexivity | vm_compute; lia].
Defined.

(** The word "dontcant" contains the keys "cant" and "dont"; "cant" comes
    first in the table, after eleven entries that the word does not
    contain, so the correction is that of "cant". *)
Lemma substring_match_is_high_witness :
  classifyWord newTypoDetector (wordOf (js "dontcant"))
  = Some (candidate (wordOf (js "dontcant")) (VString (js "can't")) high).
Proof.
  apply (@substring_match_is_high basicHost (wordOf (js "dontcant"))
           (firstn 11 englishTable) (skipn 12 englishTable)
           (js "cant") (js "can't")).
  - vm_compute. lia.
  - reflexivity.
  - reflexivity.
  - repeat (apply List.Forall_cons; [split; reflexivity|]).
    apply List.Forall_nil.
  - left. reflexivity.
Defined.

(** X3.  The word "constructor" is no entry of the English table, yet the
    table object inherits a property of that name: the word is returned
    as a candidate of tier [high], its correction the function [Object]. *)
Theorem constructor_flagged :
  assoc (js "constructor") englishTable = None
  /\ detectTypos newTypoDetector (Some (resultOf [wordOf (js "constructor")]))
     = Ok [candidate (wordOf (js "constructor")) (VNative (js "Object")) high].
Proof. split; vm_compute; reflexivity. Qed.

(** X4.  On the words of "I cant beleive the sumer is over" the classifier
    returns two candidates, (cant, can't, high) and (sumer, summer, high);
    "beleive", which the table does not hold, is not flagged. *)
Theorem end_to_end_scenario :
  detectTypos newTypoDetector
    (Some (resultOf (List.map (fun t => wordOf (js t))
             ["I"; "cant"; "beleive"; "the"; "sumer"; "is"; "over"]%string)))
  = Ok [ candidate (wordOf (js "cant")) (VString (js "can't")) high;
         candidate (wordOf (js "sumer")) (VString (js "summer")) high ].
Proof. vm_compute. reflexivity. Qed.

Lemma countTier_cons (t : Tier) (c : Typo) (typos : list Typo) :
  countTier t (c :: typos)
  = ((if bool_decide (t_confidence c = t) then 1 else 0)
     + countTier t typos)%nat.
Proof. unfold countTier. simpl. now destruct (bool_decide _). Qed.

(** X5.  The three tallies of [getTypoStats] add up to its total. *)
Theorem getTypoStats_total (typos : list Typo) :
  total (getTypoStats typos)
  = (high_confidence (getTypoStats typos)
     + medium_confidence (getTypoStats typos)
     + low_confidence (getTypoStats typos))%nat.
Proof.
  simpl. induction typos as [|c typos IH]; [reflexivity|].
  rewrite !countTier_cons. simpl length. rewrite IH.
  destruct (t_confidence c); simpl; lia.
Qed.

(* ===================================================================== *)
(** ** The normalizer                                                    *)
(* ===================================================================== *)

Lemma convertWord_box w y : convertWord w = Ok y -> is_Some (w_bbox y).
Proof.
  unfold convertWord. destruct (tw_bbox w); [|discriminate].
  intros [= <-]. eexists; reflexivity.
Qed.

Lemma Result_bind_Ok {A B : Type} (m : Result A) (f : A -> Result B) b :
  m ≫= f = Ok b -> exists a, m = Ok a /\ f a = Ok b.
Proof. destruct m as [a|e]; [eauto | discriminate]. Qed.

Lemma mapM_convertWord_length ws words :
  mapM convertWord ws = Ok words ->
  length words = length ws
  /\ Forall (fun w => is_Some (w_bbox w)) words.
Proof.
  revert words. induction ws as [|w ws IH]; simpl; intros words.
  - intros [= <-]. split; [reflexivity | constructor].
  - intros E. apply Result_bind_Ok in E as (y & Hy & E).
    apply Result_bind_Ok in E as (k & Hk & E). injection E as <-.
    destruct (IH _ Hk) as [L F]. split; [simpl; now rewrite L|].
    constructor; [eapply convertWord_box, Hy | exact F].
Qed.

Lemma processOCRResults_confidence data r :
  processOCRResults data = Ok r ->
  r_confidence r = (td_confidence data / 100)%Q.
Proof.
  unfold processOCRResults. destruct (td_words data); [|discriminate].
  destruct (mapM convertWord l); [|discriminate].
  simpl. now intros [= <-].
Qed.

(** X6.  What the normalizer returns holds an array with one word for each
    word of the engine, every one with its box, and [word_count] is the
    length of that array. *)
Theorem processOCRResults_hasBoxes data r :
  processOCRResults data = Ok r ->
  hasBoxes r = true
  /\ exists ws words, td_words data = Some ws /\ r_words r = WArray words
                      /\ length words = length ws
                      /\ r_word_count r = length words.
Proof.
  unfold processOCRResults. destruct (td_words data) as [ws|]; [|discriminate].
  destruct (mapM convertWord ws) as [words|] eqn:M; [|discriminate].
  simpl. intros [= <-]. apply mapM_convertWord_length in M as [L F].
  split.
  - unfold hasBoxes. simpl. apply forallb_forall. intros w Hw.
    apply bool_decide_eq_true. rewrite List.Forall_forall in F. now apply F.
  - exists ws, words. auto.
Qed.

Lemma processOCRResults_hasBoxes_witness :
  let word := {| w_text := js "teh"; w_confidence := 90 / 100;
                 w_bbox := Some (mkBBox 10 20 50 40 40 20) |} in
  hasBoxes (mkOCRResults (js "teh") (WArray [word]) (87 / 100) 1) = true
  /\ exists ws words,
       Some [mkTesseractWord (js "teh") 90 (Some (mkTesseractBBox 10 20 50 40))]
       = Some ws
       /\ WArray [word] = WArray words
       /\ length words = length ws
       /\ 1%nat = length words.
Proof.
  exact (processOCRResults_hasBoxes
           {| td_text := js "teh";
              td_words := Some [mkTesseractWord (js "teh") 90
                                  (Some (mkTesseractBBox 10 20 50 40))];
              td_confidence := 87 |}
           _ eq_refl).
Defined.

(** C3, the claim as stated fails: on an engine output that has no word
    list the normalizer throws. *)
Lemma normalizer_throws_without_words :
  processOCRResults {| td_text := js "teh cat"; td_words := None;
                       td_confidence := 87 |}
  = Throw TypeError.
Proof. reflexivity. Qed.

(** C3, as amended.  On an engine output that has no word list the
    normalizer throws a [TypeError] and returns no result; it returns a
    result with an empty word sequence when the word list is there and
    empty, and the classifier then returns no candidate. *)
Theorem normalizer_without_word_list `{Host} (text : jsstring)
    (confidence : Q) (this : TypoDetector) :
  processOCRResults {| td_text := text; td_words := None;
                       td_confidence := confidence |}
  = Throw TypeError
  /\ processOCRResults {| td_text := text; td_words := Some [];
                          td_confidence := confidence |}
     = Ok {| r_text := text; r_words := WArray [];
             r_confidence := confidence / 100; r_word_count := 0 |}
  /\ detectTypos this
       (Some {| r_text := text; r_words := WArray [];
                r_confidence := confidence / 100; r_word_count := 0 |})
     = Ok [].
Proof. repeat split. Qed.

(* ===================================================================== *)
(** ** The retry                                                         *)
(* ===================================================================== *)

Lemma gt_false (a b : Q) : (a <= b)%Q -> gt a b = false.
Proof.
  intros L. unfold gt. apply negb_false_iff. now apply Qle_bool_iff.
Qed.

(** X7.  Whatever the two passes report, between 0 and 100 percent, the
    retry keeps the results it held: the confidences compared are the
    percentages divided by 100, and the margin added is 10. *)
Theorem retry_never_replaces (this : App) (original : OCRResults)
    (recognized : Result TesseractData) :
  ocrResults this = Some original ->
  (0 <= r_confidence original)%Q ->
  (forall data, recognized = Ok data -> (td_confidence data <= 100)%Q) ->
  retryWithTraditionalChinese this recognized = (Some original, this).
Proof.
  intros Ho Hpos Hle. unfold retryWithTraditionalChinese. rewrite Ho.
  destruct recognized as [data|e]; simpl; [|reflexivity].
  destruct (processOCRResults data) as [retryResults|e] eqn:P; simpl;
    [|reflexivity].
  rewrite (processOCRResults_confidence _ _ P).
  specialize (Hle data eq_refl).
  rewrite gt_false; [now rewrite Ho|].
  apply Qle_trans with 1%Q; [|lra].
  apply Qle_shift_div_r; [reflexivity | lra].
Qed.

Lemma retry_never_replaces_witness :
  retryWithTraditionalChinese {| ocrResults := Some (normalized 15) |}
    (Ok (engineOutput 95))
  = (Some (normalized 15), {| ocrResults := Some (normalized 15) |}).
Proof.
  apply (retry_never_replaces {| ocrResults := Some (normalized 15) |}
           (normalized 15) (Ok (engineOutput 95))).
  - reflexivity.
  - vm_compute. discriminate.
  - intros data [= <-]. vm_compute. discriminate.
Defined.

(** C1.  The results held come from a first pass at 15%, the second pass
    reports 30%: the margin of 10 points is exceeded, yet the retry returns
    and keeps the results of the first pass.  (With a second pass at 23%
    it keeps them too.) *)
Theorem retry_keeps_original_at_15_30 :
  processOCRResults (engineOutput 15) = Ok (normalized 15)
  /\ processOCRResults (engineOutput 30) = Ok (normalized 30)
  /\ normalized 30 <> normalized 15
  /\ retryWithTraditionalChinese {| ocrResults := Some (normalized 15) |}
       (Ok (engineOutput 30))
     = (Some (normalized 15), {| ocrResults := Some (normalized 15) |})
  /\ retryWithTraditionalChinese {| ocrResults := Some (normalized 15) |}
       (Ok (engineOutput 23))
     = (Some (normalized 15), {| ocrResults := Some (normalized 15) |}).
Proof.
  repeat split; try reflexivity.
  intros E. apply (f_equal r_confidence) in E. vm_compute in E. discriminate.
Qed.

(* ===================================================================== *)
(** ** The annotation layout                                             *)
(* ===================================================================== *)

Lemma outlines_snoc cs c :
  outlines (cs ++ [c]) = outlines cs ++ outlines [c].
Proof. apply omap_app. Qed.

Lemma panels_snoc cs c :
  panels (cs ++ [c]) = panels cs ++ panels [c].
Proof. apply omap_app. Qed.

Ltac unfold_drawing :=
  unfold seq_, set_strokeStyle, set_fillStyle, set_lineWidth, set_font,
    set_globalAlpha, strokeRect, fillRect, fillText, drawImage, paint;
  simpl;
  repeat rewrite outlines_snoc; repeat rewrite panels_snoc; simpl;
  repeat rewrite app_nil_r.

(** One word with a box: one more outline, no panel. *)
Lemma drawWord_calls typos ctx w :
  is_Some (w_bbox w) ->
  exists ctx' o,
    drawWord (buildTypoMap typos) ctx w = Ok ctx'
    /\ outlineOf typos w = Some o
    /\ outlines (calls ctx') = outlines (calls ctx) ++ [o]
    /\ panels (calls ctx') = panels (calls ctx).
Proof.
  intros [b Hb]. unfold drawWord, outlineOf. rewrite Hb.
  destruct (buildTypoMap typos !! w_text w) as [typo|] eqn:M.
  - eexists _, _. split; [reflexivity|]. split.
    + rewrite bool_decide_eq_true_2 by (eexists; reflexivity). reflexivity.
    + unfold_drawing. split; reflexivity.
  - eexists _, _. split; [reflexivity|]. split.
    + rewrite bool_decide_eq_false_2 by (intros [? ?]; discriminate).
      reflexivity.
    + unfold_drawing. split; reflexivity.
Qed.

Lemma forEach_drawWord_calls typos ws : forall ctx,
  Forall (fun w => is_Some (w_bbox w)) ws ->
  exists ctx',
    forEach (drawWord (buildTypoMap typos)) ctx ws = Ok ctx'
    /\ outlines (calls ctx')
       = outlines (calls ctx) ++ omap (outlineOf typos) ws
    /\ length (omap (outlineOf typos) ws) = length ws
    /\ panels (calls ctx') = panels (calls ctx).
Proof.
  induction ws as [|w ws IH]; intros ctx F.
  - exists ctx. simpl. rewrite app_nil_r. auto.
  - inversion F as [|? ? Hw F']; subst.
    destruct (drawWord_calls typos ctx w Hw) as (ctx1 & o & D & O & Ho & Hp).
    destruct (IH ctx1 F') as (ctx' & E & Hos & Hlen & Hps).
    exists ctx'. simpl. rewrite D. simpl. rewrite O. simpl.
    repeat split.
    + exact E.
    + rewrite Hos, Ho, <- app_assoc. reflexivity.
    + f_equal. exact Hlen.
    + now rewrite Hps, Hp.
Qed.

(** The legend: one panel and one outline, at the same place, which is
    computed from [canvasWidth] alone. *)
Lemma drawLegend_calls canvasWidth canvasHeight ctx :
  outlines (calls (drawLegend canvasWidth canvasHeight ctx))
  = outlines (calls ctx) ++ [(canvasWidth - 200, 20, 180, 80, 1)%Z]
  /\ panels (calls (drawLegend canvasWidth canvasHeight ctx))
     = panels (calls ctx) ++ [(canvasWidth - 200, 20, 180, 80)%Z].
Proof. unfold drawLegend. unfold_drawing. split; reflexivity. Qed.

Lemma hasBoxes_words r :
  hasBoxes r = true ->
  exists ws, r_words r = WArray ws
             /\ Forall (fun w => is_Some (w_bbox w)) ws.
Proof.
  unfold hasBoxes. destruct (r_words r) as [| | | |ws]; try discriminate.
  intros F. exists ws. split; [reflexivity|].
  apply List.Forall_forall. intros w Hw.
  rewrite forallb_forall in F. specialize (F w Hw).
  now apply bool_decide_eq_true in F.
Qed.

(** The whole layout, for a result whose words all have a box. *)
Lemma drawAnnotations_calls img r typos :
  hasBoxes r = true ->
  exists ws ctx,
    r_words r = WArray ws
    /\ drawAnnotations img r typos
       = Ok ({| c_width := naturalWidth img;
                c_height := naturalHeight img |}, ctx)
    /\ outlines (calls ctx)
       = omap (outlineOf typos) ws
         ++ [(naturalWidth img - 200, 20, 180, 80, 1)%Z]
    /\ length (omap (outlineOf typos) ws) = length ws
    /\ panels (calls ctx) = [(naturalWidth img - 200, 20, 180, 80)%Z].
Proof.
  intros Hb. destruct (hasBoxes_words r Hb) as (ws & Hr & F).
  destruct (forEach_drawWord_calls typos ws (drawImage 0 0 resetContext) F)
    as (ctx' & E & Hos & Hlen & Hps).
  exists ws, (drawLegend (naturalWidth img) (naturalHeight img) ctx').
  unfold drawAnnotations. rewrite Hr, E.
  destruct (drawLegend_calls (naturalWidth img) (naturalHeight img) ctx')
    as [Lo Lp].
  repeat split; try assumption.
  - rewrite Lo, Hos. reflexivity.
  - rewrite Lp, Hps. reflexivity.
Qed.

(** C5.  For a result with any number of words, each with its box, the
    layout outlines one rectangle per word, in order, at the word's box
    (3 units wide when the word's text is a key of the typo lookup, 1 unit
    otherwise), and then one rectangle for the legend: [length words + 1]
    in all. *)
Theorem layout_one_outline_per_word (img : Image) (r : OCRResults)
    (typos : list Typo) :
  hasBoxes r = true ->
  exists ws ctx,
    r_words r = WArray ws
    /\ drawAnnotations img r typos
       = Ok ({| c_width := naturalWidth img;
                c_height := naturalHeight img |}, ctx)
    /\ outlines (calls ctx)
       = omap (outlineOf typos) ws
         ++ [(naturalWidth img - 200, 20, 180, 80, 1)%Z]
    /\ length (omap (outlineOf typos) ws) = length ws
    /\ length (outlines (calls ctx)) = (length ws + 1)%nat.
Proof.
  intros Hb.
  destruct (drawAnnotations_calls img r typos Hb)
    as (ws & ctx & Hr & D & Ho & Hlen & _).
  exists ws, ctx. repeat split; try assumption.
  rewrite Ho, length_app, Hlen. reflexivity.
Qed.

(** C6.  Two layouts on canvases of the same width, whatever the words,
    the candidates and the heights, put the legend at the same place: a
    panel of 180 by 80 whose right edge is 20 units from the right edge of
    the canvas and whose top edge is 20 units from the top. *)
Theorem legend_depends_on_width_only (img1 img2 : Image)
    (r1 r2 : OCRResults) (typos1 typos2 : list Typo) :
  naturalWidth img1 = naturalWidth img2 ->
  hasBoxes r1 = true ->
  hasBoxes r2 = true ->
  exists cv1 ctx1 cv2 ctx2 x,
    drawAnnotations img1 r1 typos1 = Ok (cv1, ctx1)
    /\ drawAnnotations img2 r2 typos2 = Ok (cv2, ctx2)
    /\ panels (calls ctx1) = [(x, 20, 180, 80)%Z]
    /\ panels (calls ctx2) = [(x, 20, 180, 80)%Z]
    /\ last (outlines (calls ctx1)) = Some (x, 20, 180, 80, 1)%Z
    /\ last (outlines (calls ctx2)) = Some (x, 20, 180, 80, 1)%Z
    /\ (x + 180 + 20 = c_width cv1)%Z
    /\ c_width cv1 = naturalWidth img1.
Proof.
  intros W Hb1 Hb2.
  destruct (drawAnnotations_calls img1 r1 typos1 Hb1)
    as (ws1 & ctx1 & _ & D1 & Ho1 & _ & Hp1).
  destruct (drawAnnotations_calls img2 r2 typos2 Hb2)
    as (ws2 & ctx2 & _ & D2 & Ho2 & _ & Hp2).
  rewrite <- W in Ho2, Hp2.
  eexists _, ctx1, _, ctx2, (naturalWidth img1 - 200)%Z.
  repeat split; try eassumption.
  - rewrite Ho1. apply last_snoc.
  - rewrite Ho2. apply last_snoc.
  - simpl. lia.
  - reflexivity.
Qed.

(** *** Instances on a concrete page *)

Lemma layout_one_outline_per_word_witness :
  let img := {| naturalWidth := 800; naturalHeight := 600 |} in
  let r := resultOf [wordOf (js "teh"); wordOf (js "cat")] in
  let typos := [candidate (wordOf (js "teh")) (VString (js "the")) high] in
  exists ws ctx,
    r_words r = WArray ws
    /\ drawAnnotations img r typos = Ok ({| c_width := 800; c_height := 600 |}, ctx)
    /\ outlines (calls ctx)
       = omap (outlineOf typos) ws ++ [(800 - 200, 20, 180, 80, 1)%Z]
    /\ length (omap (outlineOf typos) ws) = length ws
    /\ length (outlines (calls ctx)) = (length ws + 1)%nat.
Proof.
  exact (layout_one_outline_per_word
           {| naturalWidth := 800; naturalHeight := 600 |}
           (resultOf [wordOf (js "teh"); wordOf (js "cat")])
           [candidate (wordOf (js "teh")) (VString (js "the")) high]
           eq_refl).
Defined.

Lemma legend_depends_on_width_only_witness :
  exists cv1 ctx1 cv2 ctx2 x,
    drawAnnotations {| naturalWidth := 800; naturalHeight := 600 |}
      (resultOf [wordOf (js "teh"); wordOf (js "cat")])
      [candidate (wordOf (js "teh")) (VString (js "the")) high]
    = Ok (cv1, ctx1)
    /\ drawAnnotations {| naturalWidth := 800; naturalHeight := 1000 |}
         (resultOf []) []
       = Ok (cv2, ctx2)
    /\ panels (calls ctx1) = [(x, 20, 180, 80)%Z]
    /\ panels (calls ctx2) = [(x, 20, 180, 80)%Z]
    /\ last (outlines (calls ctx1)) = Some (x, 20, 180, 80, 1)%Z
    /\ last (outlines (calls ctx2)) = Some (x, 20, 180, 80, 1)%Z
    /\ (x + 180 + 20 = c_width cv1)%Z
    /\ c_width cv1 = 800%Z.
Proof.
  exact (legend_depends_on_width_only
           {| naturalWidth := 800; naturalHeight := 600 |}
           {| naturalWidth := 800; naturalHeight := 1000 |}
           (resultOf [wordOf (js "teh"); wordOf (js "cat")])
           (resultOf [])
           [candidate (wordOf (js "teh")) (VString (js "the")) high]
           []
           eq_refl eq_refl eq_refl).
Defined.

(* ===================================================================== *)
(** ** Further properties of the classifier                              *)
(* ===================================================================== *)

Section ClassifierMore.
Context `{Host}.

(** The decision for a word is taken on its text alone; the box is only
    copied into the candidate. *)
Lemma classifyWord_verdict (this : TypoDetector) (w : Word) :
  classifyWord this w
  = (fun p => candidate w (fst p) (snd p)) <$> verdict this (w_text w).
Proof.
  unfold verdict, classifyWord. simpl.
  destruct (length _ <? 2)%nat; [reflexivity|].
  destruct (heuristicStage this _ _ _) as [[v|] t]; [|reflexivity].
  destruct (truthy v); reflexivity.
Qed.

Lemma heuristicStage_cases this key text c0 t0 c t :
  heuristicStage this key text (c0, t0) = (c, t) ->
  (c = c0 /\ t = t0)
  \/ (truthyOpt c0 = false
      /\ bool_decide (key ∈ commonWords this) = false
      /\ (4 <? length key)%nat = true
      /\ suspiciousPatterns text = true
      /\ t = medium
      /\ ((strictEq (repair text) text = false
           /\ c = Some (VString (toLowerCase (repair text))))
          \/ (strictEq (repair text) text = true /\ c = c0))).
Proof.
  unfold heuristicStage.
  destruct (truthyOpt c0) eqn:T; simpl; [intros [= <- <-]; now left|].
  destruct (bool_decide (key ∈ commonWords this)) eqn:C; simpl;
    [intros [= <- <-]; now left|].
  destruct (4 <? length key)%nat eqn:L; [|intros [= <- <-]; now left].
  destruct (suspiciousPatterns text) eqn:S; [|intros [= <- <-]; now left].
  destruct (strictEq (repair text) text) eqn:Q; simpl;
    intros [= <- <-]; right; repeat split; auto.
Qed.

Lemma partialMatch_firstMatch table key text fix_ :
  partialMatch table key text = Some fix_ ->
  exists typo, firstMatch table key text typo fix_.
Proof.
  unfold partialMatch. induction table as [|[k v] table IH]; [discriminate|].
  cbn [List.find fst].
  destruct (includes key k || includes (toLowerCase text) k) eqn:E.
  - intros [= <-]. exists k, [], table. repeat split; [constructor|].
    now apply orb_true_iff.
  - intros F. destruct (IH F) as (typo & pre & post & -> & P & I).
    apply orb_false_iff in E.
    exists typo, ((k, v) :: pre), post. repeat split; [|exact I].
    constructor; [exact E | exact P].
Qed.

(** Where a candidate comes from: the dictionary stage or the heuristic. *)
Lemma classifyWord_origin (this : TypoDetector) (w : Word) (c : Typo) :
  classifyWord this w = Some c ->
  let key := cleanWord (w_text w) in
  c = candidate w (t_correction c) (t_confidence c)
  /\ (2 <= length key)%nat
  /\ truthy (t_correction c) = true
  /\ ((t_confidence c = high
       /\ (getProperty (typoCorrections this) key = Some (t_correction c)
           \/ (truthyOpt (getProperty (typoCorrections this) key) = false
               /\ exists typo fix_,
                    firstMatch (typoCorrections this) key (w_text w) typo fix_
                    /\ t_correction c = VString fix_)))
      \/ (t_confidence c = medium
          /\ reachesHeuristic this w = true
          /\ repair (w_text w) <> w_text w
          /\ t_correction c = VString (toLowerCase (repair (w_text w))))).
Proof.
  intros E key. unfold classifyWord in E. fold key in E.
  destruct (Nat.ltb_spec (length key) 2) as [|Hlen]; [discriminate|].
  destruct (dictionaryStage this key (w_text w)) as [c0 t0] eqn:D.
  destruct (heuristicStage this key (w_text w) (c0, t0)) as [c1 t1] eqn:S.
  destruct c1 as [v|]; [|discriminate].
  destruct (truthy v) eqn:T; [|discriminate].
  injection E as <-. simpl. repeat split; try assumption.
  apply heuristicStage_cases in S
    as [[E1 E2] | (T0 & C & L & P & -> & [[Q E1] | [Q E1]])].
  - subst c0 t0. left. unfold dictionaryStage in D.
    destruct (truthyOpt (getProperty _ key)) eqn:G.
    + injection D as <- <-. auto.
    + destruct (partialMatch _ key (w_text w)) as [fix_|] eqn:M;
        [|discriminate].
      injection D as <- <-. split; [reflexivity|]. right.
      split; [reflexivity|].
      destruct (partialMatch_firstMatch _ _ _ _ M) as [typo F]. eauto.
  - right. injection E1 as ->. repeat split; try reflexivity.
    + unfold reachesHeuristic. fold key. rewrite D. simpl.
      now rewrite T0, C, L, P.
    + intros R. unfold strictEq in Q.
      now apply bool_decide_eq_false in Q.
  - subst c0. simpl in T0. congruence.
Qed.

(** X8.  Where a candidate comes from.  A candidate of tier [high] carries
    what the table returned for the cleaned key of its word, or the
    correction of the first entry of the table that the word contains; a
    candidate of tier [medium] belongs to a word that reached the
    heuristic, its correction the lower-cased repair, which differs from
    the word.  In both cases the key has two characters or more. *)
Theorem candidate_origin (this : TypoDetector) (w : Word) (c : Typo) :
  classifyWord this w = Some c ->
  let key := cleanWord (w_text w) in
  c = candidate w (t_correction c) (t_confidence c)
  /\ (2 <= length key)%nat
  /\ truthy (t_correction c) = true
  /\ ((t_confidence c = high
       /\ (getProperty (typoCorrections this) key = Some (t_correction c)
           \/ (truthyOpt (getProperty (typoCorrections this) key) = false
               /\ exists typo fix_,
                    firstMatch (typoCorrections this) key (w_text w) typo fix_
                    /\ t_correction c = VString fix_)))
      \/ (t_confidence c = medium
          /\ reachesHeuristic this w = true
          /\ repair (w_text w) <> w_text w
          /\ t_correction c = VString (toLowerCase (repair (w_text w))))).
Proof. exact (classifyWord_origin this w c). Qed.


(** X9.  The candidates follow the words: they are, in reading order, the
    texts and boxes of some of the words, at most one for each word, and the
    position of a candidate is the top-left corner of its box. *)
Theorem candidates_follow_words (this : TypoDetector) (r : OCRResults)
    (ws : list Word) (typos : list Typo) :
  r_words r = WArray ws ->
  detectTypos this (Some r) = Ok typos ->
  List.map (fun c => (t_original c, t_bbox c)) typos
    `sublist_of` List.map (fun w => (w_text w, w_bbox w)) ws
  /\ (length typos <= length ws)%nat
  /\ Forall (fun c => t_position c = match t_bbox c with
                                     | Some b => (x0 b, y0 b)
                                     | None => (0, 0)%Z
                                     end) typos.
Proof.
  intros Hr E. rewrite (detectTypos_array _ _ _ Hr) in E. injection E as <-.
  clear Hr. induction ws as [|w ws IH]; cbn -[classifyWord].
  - repeat split; constructor.
  - destruct IH as (S & L & P).
    rewrite classifyWord_verdict.
    destruct (verdict this (w_text w)) as [[v t]|]; cbn -[classifyWord].
    + repeat split; [now constructor | lia | now constructor].
    + repeat split; [now constructor | lia | assumption].
Qed.

(** A word whose key reads a truthy property of the table. *)
Lemma classifyWord_property this w v :
  getProperty (typoCorrections this) (cleanWord (w_text w)) = Some v ->
  truthy v = true ->
  (2 <= length (cleanWord (w_text w)))%nat ->
  classifyWord this w = Some (candidate w v high).
Proof.
  intros G T Hlen. unfold classifyWord.
  destruct (Nat.ltb_spec (length (cleanWord (w_text w))) 2) as [L|_]; [lia|].
  unfold dictionaryStage. rewrite G. simpl. rewrite T.
  unfold heuristicStage. simpl. rewrite T. simpl. rewrite T. reflexivity.
Qed.

(** X10.  The table is read as a property of an object, so a word whose
    cleaned key names a member that every object inherits (in lower case
    there are two, "constructor" and "__proto__") is a candidate of tier
    [high] although the table has no such entry; its correction is the
    inherited member, not a string. *)
Theorem inherited_member_flagged (w : Word) (name : jsstring) (v : JSValue) :
  In (name, v) objectPrototype ->
  cleanWord (w_text w) = name ->
  assoc name englishTable = None
  /\ (forall s, v <> VString s)
  /\ classifyWord newTypoDetector w = Some (candidate w v high).
Proof.
  intros HIn K.
  assert (G : assoc name englishTable = None
              /\ getProperty englishTable name = Some v
              /\ truthy v = true /\ (2 <= length name)%nat
              /\ forall s, v <> VString s).
  { unfold objectPrototype in HIn. simpl in HIn.
    repeat (destruct HIn as [[= <- <-] | HIn];
            [ repeat split; try reflexivity; try discriminate;
              vm_compute; lia | ]).
    contradiction. }
  destruct G as (A & G & T & L & V). repeat split; try assumption.
  apply classifyWord_property; [| exact T | rewrite K; exact L].
  change (typoCorrections newTypoDetector) with englishTable.
  rewrite K. exact G.
Qed.

Lemma keyUnit_digit (c d : N) :
  isDigit d = true -> In d (keyUnit c) -> c = d.
Proof.
  unfold isDigit, keyUnit, isUpperAscii, isLowerAscii, isDigit.
  intros D. apply andb_prop in D as [D1 D2].
  apply N.leb_le in D1, D2.
  repeat match goal with
         | |- context [N.leb ?a ?b] => destruct (N.leb_spec a b)
         | |- context [N.eqb ?a ?b] => destruct (N.eqb_spec a b)
         end; simpl; intros I;
    repeat (destruct I as [I | I]; [subst; lia|]); contradiction.
Qed.

Lemma toLowerCase_digit (s : jsstring) (d : N) :
  isDigit d = true -> In d (toLowerCase s) -> In d s.
Proof.
  intros D I.
  assert (F : In d (List.filter isWordChar (toLowerCase s))).
  { apply List.filter_In. split; [exact I|].
    unfold isWordChar. rewrite D. now rewrite !orb_true_r. }
  rewrite toLowerCase_word_chars in F. unfold asciiKey in F.
  apply in_flat_map in F as (c & Hc & Hd).
  now rewrite (keyUnit_digit c d D Hd) in Hc.
Qed.

Lemma replaceAll_gone (c d : N) (s : jsstring) :
  c <> d -> ~ In c (replaceAll c d s).
Proof.
  intros Hcd I. unfold replaceAll in I. apply in_map_iff in I as (u & E & _).
  destruct (N.eqb_spec u c); congruence.
Qed.

Lemma replaceAll_kept (c d x : N) (s : jsstring) :
  x <> d -> ~ In x s -> ~ In x (replaceAll c d s).
Proof.
  intros Hx N I. unfold replaceAll in I. apply in_map_iff in I as (u & E & Hu).
  destruct (N.eqb_spec u c); [congruence | subst; contradiction].
Qed.

Lemma repair_clean (s : jsstring) :
  ~ In 124 (repair s) /\ ~ In 49 (repair s) /\ ~ In 48 (repair s).
Proof.
  unfold repair. repeat split.
  - apply replaceAll_kept; [discriminate|].
    apply replaceAll_kept; [discriminate|].
    apply replaceAll_gone. discriminate.
  - apply replaceAll_kept; [discriminate|].
    apply replaceAll_gone. discriminate.
  - apply replaceAll_gone. discriminate.
Qed.

Lemma replaceAll_absent (c d : N) (s : jsstring) :
  ~ In c s -> replaceAll c d s = s.
Proof.
  unfold replaceAll. induction s as [|u s IH]; simpl; [reflexivity|].
  intros N. destruct (N.eqb_spec u c) as [->|_]; [tauto|].
  f_equal. apply IH. tauto.
Qed.

(** X11.  The repair leaves no pipe, no 1 and no 0, keeps the length of the
    word, and repairing twice is repairing once; the correction of a
    candidate of tier [medium] is a non-empty string without the digits 0
    and 1. *)
Theorem heuristic_correction_repaired (this : TypoDetector) (w : Word)
    (c : Typo) :
  classifyWord this w = Some c ->
  t_confidence c = medium ->
  let text := w_text w in
  repair (repair text) = repair text
  /\ length (repair text) = length text
  /\ Forall (fun u => u <> 124 /\ u <> 49 /\ u <> 48) (repair text)
  /\ exists s, t_correction c = VString s
               /\ s <> [] /\ ~ In 48 s /\ ~ In 49 s.
Proof.
  intros E M text. destruct (repair_clean text) as (P & O & Z).
  repeat split.
  - unfold repair at 1.
    rewrite (replaceAll_absent 124), (replaceAll_absent 49),
      (replaceAll_absent 48); auto.
  - unfold repair, replaceAll. now rewrite !length_map.
  - apply List.Forall_forall. intros u Hu. repeat split; congruence.
  - destruct (classifyWord_origin this w c E)
      as (_ & _ & T & [[Hh _] | (_ & _ & _ & Hc)]); [congruence|].
    exists (toLowerCase (repair (w_text w))). split; [exact Hc|].
    rewrite Hc in T. repeat split.
    + intros N. now rewrite N in T.
    + intros I. now apply toLowerCase_digit in I.
    + intros I. now apply toLowerCase_digit in I.
Qed.

End ClassifierMore.

(* ===================================================================== *)
(** ** Further properties of the layout                                  *)
(* ===================================================================== *)

Lemma buildTypoMap_snoc (typos : list Typo) (t : Typo) :
  buildTypoMap (typos ++ [t]) = <[t_original t := t]> (buildTypoMap typos).
Proof. unfold buildTypoMap. now rewrite foldl_app. Qed.

(** X12.  The lookup of the layout is keyed by text, and of several
    candidates with the same text the last one stays: the entry for a text
    is the last candidate of the sequence whose original is that text, and
    there is none exactly when no candidate has it. *)
Theorem typoMap_last_write_wins (typos : list Typo) (text : jsstring) :
  buildTypoMap typos !! text
  = last (List.filter (fun t => strictEq (t_original t) text) typos).
Proof.
  induction typos as [|t typos IH] using rev_ind; [reflexivity|].
  rewrite buildTypoMap_snoc, List.filter_app. simpl.
  unfold strictEq at 2. case_bool_decide as E.
  - rewrite E, lookup_insert_eq. symmetry. apply last_snoc.
  - rewrite lookup_insert_ne by exact E. now rewrite app_nil_r.
Qed.

Lemma forEach_drawWord_throws typos ws : forall ctx,
  ~ Forall (fun w => is_Some (w_bbox w)) ws ->
  forEach (drawWord (buildTypoMap typos)) ctx ws = Throw TypeError.
Proof.
  induction ws as [|w ws IH]; intros ctx N.
  - exfalso. apply N. constructor.
  - cbn [forEach]. destruct (w_bbox w) as [b|] eqn:B.
    + destruct (drawWord_calls typos ctx w) as (ctx1 & o & D & _);
        [rewrite B; eexists; reflexivity|].
      rewrite D. cbn [mbind Result_bind]. apply IH. intros F. apply N.
      constructor; [rewrite B; eexists; reflexivity | exact F].
    + unfold drawWord. rewrite B. reflexivity.
Qed.

(** X13.  The layout fails, with a [TypeError], exactly when the words of
    the result are not an array or one of them has no box; nothing else
    makes it fail. *)
Theorem drawAnnotations_fails_without_boxes (img : Image) (r : OCRResults)
    (typos : list Typo) :
  drawAnnotations img r typos = Throw TypeError <-> hasBoxes r = false.
Proof.
  split.
  - intros T. destruct (hasBoxes r) eqn:B; [|reflexivity].
    destruct (drawAnnotations_calls img r typos B) as (ws & ctx & _ & D & _).
    congruence.
  - intros B. unfold drawAnnotations, hasBoxes in *.
    destruct (r_words r) as [| | | |ws]; try reflexivity.
    rewrite forEach_drawWord_throws; [reflexivity|].
    intros F. apply not_true_iff_false in B. apply B.
    apply forallb_forall. intros w Hw. apply bool_decide_eq_true.
    rewrite List.Forall_forall in F. now apply F.
Qed.

Lemma drawWord_opaqueSoFar typoMap ctx w ctx' :
  opaqueSoFar ctx -> drawWord typoMap ctx w = Ok ctx' -> opaqueSoFar ctx'.
Proof.
  intros [A P]. unfold drawWord.
  destruct (w_bbox w) as [b|]; [|discriminate].
  destruct (typoMap !! w_text w) as [typo|]; intros [= <-];
    unfold opaqueSoFar, seq_, set_strokeStyle, set_fillStyle, set_lineWidth,
      set_font, set_globalAlpha, strokeRect, fillRect, fillText, paint;
    simpl; (split; [try reflexivity; exact A|]).
  - rewrite A. unfold tierColor.
    repeat (apply Forall_app; split); try exact P;
      apply Forall_singleton; simpl; [|reflexivity].
    right. left. case_bool_decide; auto.
  - repeat (apply Forall_app; split); try exact P;
      apply Forall_singleton; simpl.
    left. auto.
Qed.

Lemma forEach_opaqueSoFar typoMap ws : forall ctx ctx',
  opaqueSoFar ctx ->
  forEach (drawWord typoMap) ctx ws = Ok ctx' -> opaqueSoFar ctx'.
Proof.
  induction ws as [|w ws IH]; simpl; intros ctx ctx' I.
  - now intros [= <-].
  - intros E. apply Result_bind_Ok in E as (ctx1 & D & E).
    eapply IH; [|exact E]. eapply drawWord_opaqueSoFar; eassumption.
Qed.



(* ===================================================================== *)
(** ** The classifier and the layout together                            *)
(* ===================================================================== *)

Lemma labels_snoc cs c : labels (cs ++ [c]) = labels cs ++ labels [c].
Proof. apply omap_app. Qed.

Lemma drawWord_labels typos ctx w ctx' :
  drawWord (buildTypoMap typos) ctx w = Ok ctx' ->
  labels (calls ctx')
  = labels (calls ctx) ++ from_option (fun l => [l]) [] (labelOf typos w).
Proof.
  unfold drawWord, labelOf. destruct (w_bbox w) as [b|]; [|discriminate].
  destruct (buildTypoMap typos !! w_text w) as [typo|]; intros [= <-];
    unfold seq_, set_strokeStyle, set_fillStyle, set_lineWidth, set_font,
      set_globalAlpha, strokeRect, fillRect, fillText, paint; simpl;
    repeat rewrite labels_snoc; simpl; now rewrite ?app_nil_r.
Qed.

Lemma forEach_drawWord_labels typos ws : forall ctx ctx',
  forEach (drawWord (buildTypoMap typos)) ctx ws = Ok ctx' ->
  labels (calls ctx') = labels (calls ctx) ++ omap (labelOf typos) ws.
Proof.
  induction ws as [|w ws IH]; intros ctx ctx'.
  - intros [= <-]. now rewrite app_nil_r.
  - cbn [forEach]. intros E. apply Result_bind_Ok in E as (ctx1 & D & E).
    rewrite (IH _ _ E), (drawWord_labels _ _ _ _ D), <- app_assoc.
    f_equal. cbn [omap list_omap]. now destruct (labelOf typos w).
Qed.

Lemma drawLegend_labels canvasWidth canvasHeight ctx :
  labels (calls (drawLegend canvasWidth canvasHeight ctx)) = labels (calls ctx).
Proof.
  unfold drawLegend, seq_, set_strokeStyle, set_fillStyle, set_lineWidth,
    set_font, set_globalAlpha, strokeRect, fillRect, fillText, paint; simpl.
  repeat rewrite labels_snoc. simpl. now rewrite !app_nil_r.
Qed.

Lemma omap_ext_in {A B : Type} (f g : A -> option B) (l : list A) :
  (forall x, In x l -> f x = g x) -> omap f l = omap g l.
Proof.
  induction l as [|x l IH]; intros E; [reflexivity|].
  cbn [omap list_omap]. rewrite (E x) by now left.
  rewrite IH; [reflexivity|]. intros y Hy. apply E. now right.
Qed.

Section Pipeline.
Context `{Host}.

(** What the lookup built from the candidates of [ws] holds for a text. *)
Lemma lookup_classified (this : TypoDetector) (ws : list Word)
    (text : jsstring) :
  match buildTypoMap (omap (classifyWord this) ws) !! text with
  | Some c =>
      verdict this text = Some (t_correction c, t_confidence c)
  | None =>
      forall w, In w ws -> w_text w = text -> verdict this text = None
  end.
Proof.
  induction ws as [|w ws IH] using rev_ind.
  - cbn [omap list_omap]. unfold buildTypoMap. cbn [foldl].
    rewrite lookup_empty. intros w [].
  - rewrite omap_app. cbn [omap list_omap].
    rewrite classifyWord_verdict.
    destruct (verdict this (w_text w)) as [[v t]|] eqn:V; cbn [fmap option_fmap option_map].
    + rewrite buildTypoMap_snoc. simpl t_original.
      destruct (decide (w_text w = text)) as [<-|N].
      * rewrite lookup_insert_eq. exact V.
      * rewrite lookup_insert_ne by exact N.
        destruct (buildTypoMap _ !! text); [exact IH|].
        intros w' Hw' T. apply in_app_or in Hw' as [Hw'|[<-|[]]];
          [now apply (IH w') | contradiction].
    + rewrite app_nil_r.
      destruct (buildTypoMap _ !! text); [exact IH|].
      intros w' Hw' T. apply in_app_or in Hw' as [Hw'|[<-|[]]];
        [now apply (IH w') | now rewrite <- T].
Qed.

Lemma outlineOf_classified this ws w :
  In w ws -> outlineOf (omap (classifyWord this) ws) w = outlineDue this w.
Proof.
  intros Hw. unfold outlineOf, outlineDue.
  destruct (w_bbox w) as [b|]; [|reflexivity]. simpl. do 2 f_equal.
  pose proof (lookup_classified this ws (w_text w)) as L.
  destruct (buildTypoMap _ !! w_text w) as [c|].
  - rewrite L. reflexivity.
  - rewrite (L w Hw eq_refl). reflexivity.
Qed.

Lemma labelOf_classified this ws w :
  In w ws -> labelOf (omap (classifyWord this) ws) w = labelDue this w.
Proof.
  intros Hw. unfold labelOf, labelDue.
  pose proof (lookup_classified this ws (w_text w)) as L.
  destruct (buildTypoMap _ !! w_text w) as [c|].
  - rewrite L. reflexivity.
  - rewrite (L w Hw eq_refl). reflexivity.
Qed.

(** X15.  The classifier and the layout together.  On a result whose words
    all have a box, the layout given the candidates of the classifier
    highlights (three units wide) exactly the words the classifier flags
    and outlines the others plainly, each at its own box, and the label
    beside a flagged word is the correction found for that very word, five
    units above its box: that the lookup is keyed by text, and keeps one
    candidate per text, changes nothing to what is drawn. *)
Theorem layout_of_classified (this : TypoDetector) (img : Image)
    (r : OCRResults) :
  hasBoxes r = true ->
  exists ws typos ctx,
    r_words r = WArray ws
    /\ detectTypos this (Some r) = Ok typos
    /\ drawAnnotations img r typos
       = Ok ({| c_width := naturalWidth img;
                c_height := naturalHeight img |}, ctx)
    /\ outlines (calls ctx)
       = omap (outlineDue this) ws
         ++ [(naturalWidth img - 200, 20, 180, 80, 1)%Z]
    /\ labels (calls ctx) = omap (labelDue this) ws.
Proof.
  intros B.
  destruct (hasBoxes_words r B) as (ws & Hr & _).
  set (typos := omap (classifyWord this) ws).
  destruct (drawAnnotations_calls img r typos B)
    as (ws' & ctx & Hr' & D & O & _ & _).
  assert (ws' = ws) by congruence. subst ws'.
  exists ws, typos, ctx. repeat split; try assumption.
  - now apply detectTypos_array.
  - rewrite O. f_equal. apply omap_ext_in. intros w Hw.
    now apply outlineOf_classified.
  - unfold drawAnnotations in D. rewrite Hr in D.
    apply Result_bind_Ok in D as (ctx1 & F & D). injection D as <-.
    rewrite drawLegend_labels, (forEach_drawWord_labels _ _ _ _ F).
    simpl. apply omap_ext_in. intros w Hw. now apply labelOf_classified.
Qed.

(** X16.  [formatTyposForDisplay] keeps the candidates, their fields and
    their order, and what it adds to a candidate the classifier returned is
    the class "typo-high" with the first icon or the class "typo-medium"
    with the second; the third icon is never used for them. *)
Theorem formatTyposForDisplay_of_classified (this : TypoDetector)
    (ocr : option OCRResults) (typos : list Typo) :
  detectTypos this ocr = Ok typos ->
  List.map d_typo (formatTyposForDisplay typos) = typos
  /\ Forall (fun d =>
               (t_confidence (d_typo d) = high
                /\ displayClass d = js "typo-high" /\ icon d = iconHigh)
               \/ (t_confidence (d_typo d) = medium
                   /\ displayClass d = js "typo-medium"
                   /\ icon d = iconMedium))
            (formatTyposForDisplay typos).
Proof.
  intros E. split.
  - unfold formatTyposForDisplay. rewrite List.map_map. simpl.
    apply List.map_id.
  - assert (T : Forall (fun c => t_confidence c = high
                                 \/ t_confidence c = medium) typos).
    { destruct ocr as [r|]; [|discriminate]. unfold detectTypos in E.
      destruct (negb _ || negb _); [injection E as <-; constructor|].
      destruct (r_words r); injection E as <-; try constructor.
      apply omap_classifyWord_tier. }
    unfold formatTyposForDisplay. apply List.Forall_forall.
    intros d Hd. apply in_map_iff in Hd as (c & <- & Hc).
    rewrite List.Forall_forall in T. simpl.
    destruct (T c Hc) as [-> | ->]; [left | right]; auto.
Qed.

End Pipeline.

(** *** Instances of the further properties *)

Lemma candidate_origin_witness :
  let w := wordOf (js "he11o") in
  let c := candidate w (VString (js "hello")) medium in
  let key := cleanWord (w_text w) in
  c = candidate w (t_correction c) (t_confidence c)
  /\ (2 <= length key)%nat
  /\ truthy (t_correction c) = true
  /\ ((t_confidence c = high
       /\ (getProperty (typoCorrections newTypoDetector) key
           = Some (t_correction c)
           \/ (truthyOpt (getProperty (typoCorrections newTypoDetector) key)
               = false
               /\ exists typo fix_,
                    firstMatch (typoCorrections newTypoDetector) key (w_text w)
                      typo fix_
                    /\ t_correction c = VString fix_)))
      \/ (t_confidence c = medium
          /\ reachesHeuristic newTypoDetector w = true
          /\ repair (w_text w) <> w_text w
          /\ t_correction c = VString (toLowerCase (repair (w_text w))))).
Proof.
  exact (@candidate_origin basicHost newTypoDetector (wordOf (js "he11o"))
           (candidate (wordOf (js "he11o")) (VString (js "hello")) medium)
           eq_refl).
Defined.

Lemma candidates_follow_words_witness :
  let ws := [wordOf (js "teh"); wordOf (js "cat"); wordOf (js "he11o")] in
  let typos := [ candidate (wordOf (js "teh")) (VString (js "the")) high;
                 candidate (wordOf (js "he11o")) (VString (js "hello")) medium ]
  in
  List.map (fun c => (t_original c, t_bbox c)) typos
    `sublist_of` List.map (fun w => (w_text w, w_bbox w)) ws
  /\ (length typos <= length ws)%nat
  /\ Forall (fun c => t_position c = match t_bbox c with
                                     | Some b => (x0 b, y0 b)
                                     | None => (0, 0)%Z
                                     end) typos.
Proof.
  exact (@candidates_follow_words basicHost newTypoDetector
           (resultOf [wordOf (js "teh"); wordOf (js "cat");
                      wordOf (js "he11o")])
           _ _ eq_refl eq_refl).
Defined.

(** The word "Constructor:" has the key "constructor". *)
Lemma inherited_member_flagged_witness :
  assoc (js "constructor") englishTable = None
  /\ (forall s, VNative (js "Object") <> VString s)
  /\ classifyWord newTypoDetector (wordOf (js "Constructor:"))
     = Some (candidate (wordOf (js "Constructor:")) (VNative (js "Object"))
               high).
Proof.
  apply (@inherited_member_flagged basicHost (wordOf (js "Constructor:"))
           (js "constructor") (VNative (js "Object")));
    [now left | reflexivity].
Defined.

Lemma heuristic_correction_repaired_witness :
  let text := js "he11o" in
  repair (repair text) = repair text
  /\ length (repair text) = length text
  /\ Forall (fun u => u <> 124 /\ u <> 49 /\ u <> 48) (repair text)
  /\ exists s, VString (js "hello") = VString s
               /\ s <> [] /\ ~ In 48 s /\ ~ In 49 s.
Proof.
  exact (@heuristic_correction_repaired basicHost newTypoDetector
           (wordOf (js "he11o"))
           (candidate (wordOf (js "he11o")) (VString (js "hello")) medium)
           eq_refl eq_refl).
Defined.

Lemma drawAnnotations_fails_without_boxes_witness :
  drawAnnotations {| naturalWidth := 800; naturalHeight := 600 |}
    (resultOf [wordOf (js "teh");
               {| w_text := js "cat"; w_confidence := 9 # 10;
                  w_bbox := None |}])
    []
  = Throw TypeError.
Proof.
  apply (proj2 (drawAnnotations_fails_without_boxes
                  {| naturalWidth := 800; naturalHeight := 600 |}
                  (resultOf [wordOf (js "teh");
                             {| w_text := js "cat"; w_confidence := 9 # 10;
                                w_bbox := None |}])
                  [])).
  reflexivity.
Defined.

(** Two words "teh" at different boxes, and "cat" between them. *)
Lemma layout_of_classified_witness :
  let first := wordOf (js "teh") in
  let second := {| w_text := js "teh"; w_confidence := 9 # 10;
                   w_bbox := Some (mkBBox 200 20 240 40 40 20) |} in
  let r := resultOf [first; wordOf (js "cat"); second] in
  let img := {| naturalWidth := 800; naturalHeight := 600 |} in
  exists ws typos ctx,
    r_words r = WArray ws
    /\ detectTypos newTypoDetector (Some r) = Ok typos
    /\ drawAnnotations img r typos
       = Ok ({| c_width := 800; c_height := 600 |}, ctx)
    /\ outlines (calls ctx)
       = omap (outlineDue newTypoDetector) ws
         ++ [(800 - 200, 20, 180, 80, 1)%Z]
    /\ labels (calls ctx) = omap (labelDue newTypoDetector) ws.
Proof.
  exact (@layout_of_classified basicHost newTypoDetector
           {| naturalWidth := 800; naturalHeight := 600 |}
           (resultOf [wordOf (js "teh"); wordOf (js "cat");
                      {| w_text := js "teh"; w_confidence := 9 # 10;
                         w_bbox := Some (mkBBox 200 20 240 40 40 20) |}])
           eq_refl).
Defined.

Lemma formatTyposForDisplay_of_classified_witness :
  let typos := [ candidate (wordOf (js "teh")) (VString (js "the")) high;
                 candidate (wordOf (js "he11o")) (VString (js "hello")) medium ]
  in
  List.map d_typo (formatTyposForDisplay typos) = typos
  /\ Forall (fun d =>
               (t_confidence (d_typo d) = high
                /\ displayClass d = js "typo-high" /\ icon d = iconHigh)
               \/ (t_confidence (d_typo d) = medium
                   /\ displayClass d = js "typo-medium"
                   /\ icon d = iconMedium))
            (formatTyposForDisplay typos).
Proof.
  exact (@formatTyposForDisplay_of_classified basicHost newTypoDetector
           (Some (resultOf [wordOf (js "teh"); wordOf (js "he11o")]))
           _ eq_refl).
Defined.

(* ===================================================================== *)
(** ** The upload                                                        *)
(* ===================================================================== *)

(** *** Rules for the runs of methods *)

Lemma hoare_ret {A : Type} (P : Page -> Prop) (a : A) Q X :
  (forall st, P st -> Q a st) -> hoare P (mret a) Q X.
Proof. intros HQ st HP. now apply HQ. Qed.

Lemma hoare_raise {A : Type} (P : Page -> Prop) (e : Thrown)
    (Q : A -> Page -> Prop) X :
  (forall st, P st -> X st) -> hoare P (raise e) Q X.
Proof. intros HX st HP. now apply HX. Qed.

Lemma hoare_bind {A B : Type} (P : Page -> Prop) (m : Flow A)
    (k : A -> Flow B) (Q : A -> Page -> Prop) (R : B -> Page -> Prop) X :
  hoare P m Q X -> (forall a, hoare (Q a) (k a) R X) ->
  hoare P (m ≫= k) R X.
Proof.
  intros Hm Hk st HP. specialize (Hm st HP).
  unfold mbind, Flow_bind. destruct (m st) as [[a| |] st']; try exact Hm.
  now apply Hk.
Qed.

Lemma hoare_tryCatch {A : Type} (P : Page -> Prop) (body : Flow A)
    (handler : Thrown -> Flow A) (Q : A -> Page -> Prop) X' X :
  hoare P body Q X' -> (forall st, X' st -> X st) ->
  (forall e, hoare X' (handler e) Q X) ->
  hoare P (tryCatch body handler) Q X.
Proof.
  intros Hb HX Hh st HP. specialize (Hb st HP). unfold tryCatch.
  destruct (body st) as [[a| |] st']; [exact Hb | | now apply HX].
  now apply Hh.
Qed.

Lemma hoare_get (P : Page -> Prop) (Q : Page -> Page -> Prop) X :
  (forall st, P st -> Q st st) -> hoare P get Q X.
Proof. intros HQ st HP. now apply HQ. Qed.

Lemma hoare_modify (P : Page -> Prop) (f : Page -> Page)
    (Q : unit -> Page -> Prop) X :
  (forall st, P st -> Q tt (f st)) -> hoare P (modify f) Q X.
Proof. intros HQ st HP. now apply HQ. Qed.

Lemma hoare_await {A : Type} (env : Env) (p : Point) (o : Completion A)
    (P : Page -> Prop) (Q : A -> Page -> Prop) (X : Page -> Prop) :
  (forall st, P st ->
     (forall a, Q a (if cancelDuring env p then cancelProcessing st else st))
     /\ X (if cancelDuring env p then cancelProcessing st else st)) ->
  hoare P (await env p o) Q X.
Proof.
  intros HQ st HP. destruct (HQ st HP) as [HQ' HX]. unfold await.
  destruct o; auto.
Qed.

Lemma hoare_weaken {A : Type} (P P' : Page -> Prop) (m : Flow A)
    (Q Q' : A -> Page -> Prop) (X X' : Page -> Prop) :
  hoare P' m Q' X' ->
  (forall st, P st -> P' st) ->
  (forall a st, Q' a st -> Q a st) ->
  (forall st, X' st -> X st) ->
  hoare P m Q X.
Proof.
  intros Hm HP HQ HX st Hst. specialize (Hm st (HP st Hst)).
  destruct (m st) as [[a| |] st']; auto.
Qed.

Lemma hoare_false {A : Type} (P : Page -> Prop) (m : Flow A) Q X :
  (forall st, P st -> False) -> hoare P m Q X.
Proof. intros HP st Hst. destruct (HP st Hst). Qed.

Lemma keeps_bind {A B : Type} I (m : Flow A) (k : A -> Flow B) :
  keeps I m -> (forall a, keeps I (k a)) -> keeps I (m ≫= k).
Proof. intros Hm Hk. eapply hoare_bind; [exact Hm | exact Hk]. Qed.

Lemma keeps_tryCatch {A : Type} I (body : Flow A) handler :
  keeps I body -> (forall e, keeps I (handler e)) ->
  keeps I (tryCatch body handler).
Proof.
  intros Hb Hh. eapply hoare_tryCatch; [exact Hb | auto | exact Hh].
Qed.

Lemma keeps_ret {A : Type} I (a : A) : keeps I (mret a).
Proof. now apply hoare_ret. Qed.

Lemma keeps_raise {A : Type} I (e : Thrown) : keeps I (@raise A e).
Proof. now apply hoare_raise. Qed.

Lemma keeps_get I : keeps I get.
Proof. now apply hoare_get. Qed.

Lemma keeps_modify I (f : Page -> Page) :
  (forall st, I st -> I (f st)) -> keeps I (modify f).
Proof. intros Hf. now apply hoare_modify. Qed.

Lemma keeps_await {A : Type} (env : Env) I (p : Point) (o : Completion A) :
  (forall st, I st -> I (cancelProcessing st)) -> keeps I (await env p o).
Proof.
  intros Hc. apply hoare_await. intros st HI.
  destruct (cancelDuring env p); auto.
Qed.

(** A run that keeps [I] ends in [I] when it returns; a weaker [J] is
    enough where it throws or waits for ever. *)
Lemma keeps_raising {A : Type} (I J : Page -> Prop) (m : Flow A) :
  keeps I m -> (forall st, I st -> J st) -> hoare I m (fun _ => I) J.
Proof. intros K W. eapply hoare_weaken; [exact K | auto ..]. Qed.

Lemma hoare_pre {A : Type} (P P' : Page -> Prop) (m : Flow A) Q X :
  (forall st, P st -> P' st) -> hoare P' m Q X -> hoare P m Q X.
Proof. intros HP Hm. eapply hoare_weaken; [exact Hm | auto ..]. Qed.

(** What holds of every state of [P] may be assumed. *)
Lemma hoare_assume {A : Type} (F : Prop) (P : Page -> Prop) (m : Flow A) Q X :
  (forall st, P st -> F) -> (F -> hoare P m Q X) -> hoare P m Q X.
Proof. intros HF Hm st Hst. exact (Hm (HF st Hst) st Hst). Qed.

(** The state read is the state. *)
Lemma hoare_get_eq (P X : Page -> Prop) :
  hoare P get (fun st0 st => st = st0 /\ P st0) X.
Proof. apply hoare_get. auto. Qed.

(** A wait that ends with a value ends with the value the environment
    gives. *)
Lemma hoare_await_value {A : Type} (env : Env) (p : Point)
    (o : Completion A) (P : Page -> Prop) (Q : A -> Page -> Prop)
    (X : Page -> Prop) :
  (forall st, P st ->
     (forall a, o = Returned a ->
                Q a (if cancelDuring env p then cancelProcessing st else st))
     /\ X (if cancelDuring env p then cancelProcessing st else st)) ->
  hoare P (await env p o) Q X.
Proof.
  intros HQ st HP. destruct (HQ st HP) as [HQ' HX]. unfold await.
  destruct o; auto.
Qed.

(** *** The states of an upload *)

Lemma grownBy_refl ok st : grownBy ok (events st) st.
Proof. exists []. split; [now rewrite app_nil_r | constructor]. Qed.

Lemma grownBy_record ok evs0 e st :
  ok e -> grownBy ok evs0 st -> grownBy ok evs0 (record e st).
Proof.
  intros He (evs & E & F). exists (evs ++ [e]). simpl. rewrite E.
  split; [now rewrite app_assoc|]. apply Forall_app. split; [exact F|].
  now apply Forall_singleton.
Qed.

Lemma grownBy_same ok evs0 st st' :
  events st' = events st -> grownBy ok evs0 st -> grownBy ok evs0 st'.
Proof. intros E (evs & E' & F). exists evs. now rewrite E. Qed.

Lemma grownBy_cancelProcessing ok evs0 st :
  (forall w, ok (Terminate w)) ->
  grownBy ok evs0 st -> grownBy ok evs0 (cancelProcessing st).
Proof.
  intros Hok G. unfold cancelProcessing.
  apply (grownBy_same _ _ _ _ eq_refl).
  simpl. destruct (currentWorker st) as [w|].
  - eapply grownBy_same; [|apply (grownBy_record ok evs0 (Terminate w) st);
                           [apply Hok | exact G]].
    reflexivity.
  - eapply grownBy_same; [|exact G]. reflexivity.
Qed.

Lemma within_same ok evs0 r0 st st' :
  events st' = events st ->
  (ocrResults (held st') = ocrResults (held st)
   \/ ocrResults (held st') = None) ->
  within ok evs0 r0 st -> within ok evs0 r0 st'.
Proof.
  intros E Hh [G Hr]. split; [now apply (grownBy_same _ _ st)|].
  destruct Hh as [-> | ->]; auto.
Qed.

Lemma within_record ok evs0 r0 e st :
  ok e -> within ok evs0 r0 st -> within ok evs0 r0 (record e st).
Proof. intros He [G Hr]. split; [now apply grownBy_record | exact Hr]. Qed.

Lemma within_cancelProcessing ok evs0 r0 st :
  (forall w, ok (Terminate w)) ->
  within ok evs0 r0 st -> within ok evs0 r0 (cancelProcessing st).
Proof.
  intros Hok [G Hr]. split.
  - now apply grownBy_cancelProcessing.
  - now right.
Qed.

Lemma within_start ok st : within ok (events st) (ocrResults (held st)) st.
Proof. split; [apply grownBy_refl | now left]. Qed.

Lemma withinCancelled_same ok evs0 r0 c st st' :
  events st' = events st ->
  (ocrResults (held st') = ocrResults (held st)
   \/ ocrResults (held st') = None) ->
  processingCancelled st' = processingCancelled st ->
  withinCancelled ok evs0 r0 c st -> withinCancelled ok evs0 r0 c st'.
Proof.
  intros E Hh Hc [W F]. split; [now apply (within_same _ _ _ st)|].
  rewrite Hc. exact F.
Qed.

Lemma withinCancelled_record ok evs0 r0 c e st :
  ok e -> withinCancelled ok evs0 r0 c st ->
  withinCancelled ok evs0 r0 c (record e st).
Proof. intros He [W F]. split; [now apply within_record | exact F]. Qed.

Lemma withinCancelled_cancelProcessing ok evs0 r0 c c' st :
  (forall w, ok (Terminate w)) ->
  withinCancelled ok evs0 r0 c st ->
  withinCancelled ok evs0 r0 c' (cancelProcessing st).
Proof.
  intros Hok [W F]. split; [now apply within_cancelProcessing|].
  intros _. unfold cancelProcessing. simpl.
  now destruct (currentWorker st).
Qed.

Lemma withinCancelled_within ok evs0 r0 c st :
  withinCancelled ok evs0 r0 c st -> within ok evs0 r0 st.
Proof. now intros [W _]. Qed.

(** At a wait, the flag is up afterwards if the user cancels during it. *)
Lemma await_withinCancelled {A : Type} (env : Env) ok evs0 r0 c (p : Point)
    (o : Completion A) :
  (forall w, ok (Terminate w)) ->
  hoare (withinCancelled ok evs0 r0 c) (await env p o)
    (fun _ => withinCancelled ok evs0 r0 (c || cancelDuring env p))
    (within ok evs0 r0).
Proof.
  intros Hok. apply hoare_await. intros st W.
  destruct (cancelDuring env p).
  - split; [intros _; now apply (withinCancelled_cancelProcessing _ _ _ c)|].
    apply within_cancelProcessing; [exact Hok | apply W].
  - rewrite orb_false_r. split; [intros _; exact W | apply W].
Qed.

(** A test of the flag that finds it down. *)
Lemma withinCancelled_down ok evs0 r0 c st :
  withinCancelled ok evs0 r0 c st -> processingCancelled st = false ->
  c = false.
Proof.
  intros [_ F] D. destruct c; [|reflexivity]. rewrite F in D; congruence.
Qed.

Ltac state_step :=
  intros;
  repeat match goal with v := _ |- _ => progress unfold v in * end;
  lazymatch goal with
  | |- grownBy _ _ (cancelProcessing _) =>
      apply grownBy_cancelProcessing; [intros ?; exact I | assumption]
  | |- grownBy _ _ (record _ _) =>
      apply grownBy_record; [exact I | assumption]
  | |- grownBy _ _ _ =>
      eapply grownBy_same; [ | eassumption]; reflexivity
  | |- within _ _ _ (cancelProcessing _) =>
      apply within_cancelProcessing; [intros ?; exact I | assumption]
  | |- within _ _ _ (record _ _) =>
      apply within_record; [exact I | assumption]
  | |- within _ _ _ _ =>
      eapply within_same; [ | | eassumption];
      [ reflexivity | first [left; reflexivity | right; reflexivity] ]
  | |- withinCancelled _ _ _ _ (cancelProcessing _) =>
      eapply withinCancelled_cancelProcessing;
      [intros ?; exact I | eassumption]
  | |- withinCancelled _ _ _ _ (record _ _) =>
      apply withinCancelled_record; [exact I | assumption]
  | |- withinCancelled _ _ _ _ _ =>
      eapply withinCancelled_same; [ | | | eassumption];
      [ reflexivity | first [left; reflexivity | right; reflexivity]
      | reflexivity ]
  end.

Ltac keeps_step :=
  lazymatch goal with
  | |- keeps _ (mret _) => apply keeps_ret
  | |- keeps _ (raise _) => apply keeps_raise
  | |- keeps _ get => apply keeps_get
  | |- keeps _ (modify _) => apply keeps_modify; state_step
  | |- keeps _ (await _ _ _) => apply keeps_await; state_step
  | |- keeps _ (mbind _ _) => apply keeps_bind; [|intros ?]
  | |- keeps _ (tryCatch _ _) => apply keeps_tryCatch; [|intros ?]
  | |- keeps _ (if ?b then _ else _) => destruct b
  | |- keeps _ (match ?x with _ => _ end) => destruct x
  end.

Ltac keeps_steps := repeat keeps_step.

(** *** The upload as app.js has it *)

Section EnglishFacts.
Context `{Host}.
Variable env : Env.

Lemma reportFailure_keeps ok evs0 r0 e :
  (forall m, ok (Alert m)) ->
  keeps (within ok evs0 r0) (reportFailure env e).
Proof.
  intros Hok. unfold reportFailure, typeError, emit.
  destruct e; [|keeps_steps].
  apply keeps_bind; [|intros ?; keeps_steps].
  apply keeps_modify. intros st W. apply within_record; [apply Hok | exact W].
Qed.

Lemma processImageWithTesseract_quiet evs0 r0 file :
  globalWorker env = None ->
  keeps (within isQuiet evs0 r0) (English.processImageWithTesseract env file).
Proof.
  intros G. unfold English.processImageWithTesseract, declinedLargeImage,
    typeError, emit. rewrite G.
  apply keeps_tryCatch; [|intros e; apply keeps_raise].
  apply keeps_bind; [keeps_steps|intros f].
  apply keeps_bind; [keeps_steps|intros declined].
  destruct declined; [keeps_steps|].
  apply keeps_bind; [keeps_steps|intros _].
  apply keeps_bind; [keeps_steps|intros _].
  eapply hoare_bind with (Q := fun _ _ => False);
    [now apply hoare_raise | intros w st []].
Qed.

(** X17.  In app.js the method that runs the engine reads a variable [worker]
    that the file declares nowhere. Unless the page defines a global of that
    name, an upload sets no parameter, recognizes nothing and shows no
    result, whatever the engine and the user do: it alerts, asks for
    confirmation or terminates a worker, and nothing else; and the results
    held are those held before, or none. *)
Theorem upload_comes_to_nothing (file : File) (st : Page) :
  globalWorker env = None ->
  let st' := snd (English.handleImageUpload env file st) in
  (exists evs, events st' = events st ++ evs /\ Forall isQuiet evs)
  /\ (ocrResults (held st') = ocrResults (held st)
      \/ ocrResults (held st') = None).
Proof.
  intros G.
  assert (K : keeps (within isQuiet (events st) (ocrResults (held st)))
                (English.handleImageUpload env file)).
  { unfold English.handleImageUpload, emit.
    destruct (negb _); [keeps_steps|].
    apply keeps_bind; [keeps_steps|intros _].
    apply keeps_bind; [keeps_steps|intros _].
    apply keeps_tryCatch;
      [|intros e; apply reportFailure_keeps; intros m; exact I].
    apply keeps_bind; [keeps_steps|intros blob].
    now apply processImageWithTesseract_quiet. }
  specialize (K st (within_start _ st)). cbv zeta.
  destruct (English.handleImageUpload env file st) as [[[]| |] st'];
    exact K.
Qed.


Lemma processImageWithTesseract_cancelled evs0 r0 c0 file :
  c0 || cancelDuring env AtCreateWorker || cancelDuring env AtSetParameters
  || cancelDuring env AtRecognize = true ->
  hoare (withinCancelled notShown evs0 r0 c0)
    (English.processImageWithTesseract env file)
    (fun _ => within notShown evs0 r0) (within notShown evs0 r0).
Proof.
  intros C. unfold English.processImageWithTesseract, declinedLargeImage,
    theWorker, typeError, emit.
  set (W := within notShown evs0 r0).
  set (WC := withinCancelled notShown evs0 r0).
  assert (WCW : forall c st, WC c st -> W st)
    by (intros c st; apply withinCancelled_within).
  eapply hoare_tryCatch with (X' := W); [|auto|intros e; apply keeps_raise].
  eapply hoare_bind;
    [apply keeps_raising with (J := W); [keeps_steps | apply WCW] | intros f].
  eapply hoare_bind;
    [apply keeps_raising with (J := W); [keeps_steps | apply WCW]
    | intros declined].
  destruct declined.
  { apply hoare_modify. intros st Wst. apply WCW in Wst. unfold W in *.
    state_step. }
  eapply hoare_bind;
    [apply await_withinCancelled; intros ?; exact I | intros ?].
  do 5 (eapply hoare_bind;
        [apply keeps_raising with (J := W); [keeps_steps | apply WCW]
        | intros ?]).
  eapply hoare_bind;
    [apply await_withinCancelled; intros ?; exact I | intros ?].
  eapply hoare_bind; [apply hoare_get_eq | intros st0].
  destruct (processingCancelled st0) eqn:F.
  { apply hoare_ret. intros st [-> Wst]. exact (WCW _ _ Wst). }
  apply hoare_assume
    with (F := c0 || cancelDuring env AtCreateWorker
               || cancelDuring env AtSetParameters = false).
  { intros st [-> Wst]. exact (withinCancelled_down _ _ _ _ _ Wst F). }
  intros C2. rewrite C2 in C. cbn [orb] in C.
  apply hoare_pre with (P' := WC false).
  { intros st [-> Wst]. split; [exact (WCW _ _ Wst) | discriminate]. }
  do 2 (eapply hoare_bind;
        [apply keeps_raising with (J := W); [keeps_steps | apply WCW]
        | intros ?]).
  eapply hoare_bind;
    [apply await_withinCancelled; intros ?; exact I | intros data].
  rewrite C. cbn [orb].
  eapply hoare_bind; [apply hoare_get_eq | intros st1].
  destruct (processingCancelled st1) eqn:F1.
  { apply hoare_ret. intros st [-> Wst]. exact (WCW _ _ Wst). }
  apply hoare_false. intros st [-> Wst].
  pose proof (withinCancelled_down _ _ _ _ _ Wst F1). discriminate.
Qed.


End EnglishFacts.

(** *** The upload as the multi-language variant has it *)

Section MultiLangFacts.
Context `{Host}.
Variable env : Env.

Lemma liftResult_hoare {A : Type} (r : Result A) (P : Page -> Prop)
    (Q : A -> Page -> Prop) (X : Page -> Prop) :
  (forall a, r = Ok a -> forall st, P st -> Q a st) ->
  (forall st, P st -> X st) ->
  hoare P (liftResult env r) Q X.
Proof.
  intros HQ HX st HP. destruct r as [a|[]]; simpl; [now apply HQ | now apply HX].
Qed.

Lemma releaseWorker_keeps (I : Page -> Prop) (p : Point) :
  (forall w st, I st -> I (record (Terminate w) st)) ->
  (forall st, I st -> I (cancelProcessing st)) ->
  (forall st, I st -> I (set_currentWorker None st)) ->
  keeps I (releaseWorker env p).
Proof.
  intros Hr Hc Hs. unfold releaseWorker, emit.
  apply keeps_bind; [apply keeps_get | intros st0].
  destruct (currentWorker st0); [|apply keeps_ret].
  apply keeps_bind; [apply keeps_modify, Hr | intros ?].
  apply keeps_bind; [apply keeps_await, Hc | intros ?].
  apply keeps_modify, Hs.
Qed.

Lemma releaseWorker_grownBy evs0 (p : Point) :
  keeps (grownBy notShown evs0) (releaseWorker env p).
Proof. apply releaseWorker_keeps; intros; state_step. Qed.

Lemma retryWithTraditionalChineseFlow_keeps evs0 :
  keeps (grownBy notShown evs0) (MultiLang.retryWithTraditionalChineseFlow env).
Proof.
  unfold MultiLang.retryWithTraditionalChineseFlow, theWorker, typeError, emit.
  apply keeps_tryCatch; [|intros e; keeps_steps].
  apply keeps_bind; [apply releaseWorker_grownBy | intros ?].
  keeps_steps.
Qed.

(** A first pass in Simplified Chinese whose confidence is at most 100
    percent is always sent to the retry. *)
Lemma retryWanted_chi_sim (data : TesseractData) (r : OCRResults) :
  (td_confidence data <= 100)%Q ->
  processOCRResults data = Ok r ->
  MultiLang.retryWanted (js "chi_sim") r = true.
Proof.
  intros C E. unfold processOCRResults in E.
  destruct (td_words data) as [ws|]; [|discriminate].
  apply Result_bind_Ok in E as (words & _ & [= <-]).
  unfold MultiLang.retryWanted, MultiLang.lt. cbn [r_confidence].
  assert (L : forall b : Q, (20 <= b)%Q ->
                            Qle_bool b (td_confidence data / 100) = false).
  { intros b Hb. apply not_true_iff_false. intros Q.
    apply Qle_bool_iff in Q.
    assert (td_confidence data / 100 <= 1)%Q
      by (apply Qle_shift_div_r; [reflexivity | lra]).
    lra. }
  rewrite (L 30%Q), (L 20%Q) by lra. reflexivity.
Qed.

Lemma processImageWithTesseract_chi_sim evs0 file :
  selectedLanguage env = js "chi_sim" ->
  (forall data, recognized env = Returned data ->
                (td_confidence data <= 100)%Q) ->
  keeps (grownBy notShown evs0) (MultiLang.processImageWithTesseract env file).
Proof.
  intros L C.
  set (G := grownBy notShown evs0).
  unfold MultiLang.processImageWithTesseract. rewrite L.
  apply keeps_tryCatch;
    [|intros e; apply keeps_bind;
      [apply releaseWorker_grownBy | intros ?; apply keeps_raise]].
  unfold declinedLargeImage, theWorker, typeError, emit.
  apply keeps_bind; [keeps_steps | intros declined].
  destruct declined; [keeps_steps|].
  do 6 (apply keeps_bind; [keeps_steps | intros ?]).
  apply keeps_bind; [apply keeps_get | intros st0].
  destruct (processingCancelled st0); [apply keeps_ret|].
  do 2 (apply keeps_bind; [keeps_steps | intros ?]).
  eapply hoare_bind
    with (Q := fun data st => recognized env = Returned data /\ G st).
  { apply hoare_await_value. intros st Gst.
    assert (G (if cancelDuring env AtRecognize
               then cancelProcessing st else st))
      by (destruct (cancelDuring env AtRecognize); unfold G in *; state_step).
    auto. }
  intros data.
  apply hoare_assume with (F := recognized env = Returned data);
    [intros st [E _]; exact E | intros E].
  apply hoare_pre with (P' := G); [intros st [_ Gst]; exact Gst|].
  apply keeps_bind; [apply keeps_get | intros st1].
  destruct (processingCancelled st1); [apply keeps_ret|].
  eapply hoare_bind
    with (Q := fun r st => processOCRResults data = Ok r /\ G st).
  { apply liftResult_hoare; auto. }
  intros r.
  apply hoare_assume with (F := processOCRResults data = Ok r);
    [intros st [E2 _]; exact E2 | intros E2].
  apply hoare_pre with (P' := G); [intros st [_ Gst]; exact Gst|].
  apply keeps_bind; [keeps_steps | intros ?].
  rewrite (retryWanted_chi_sim data r (C data E) E2).
  apply keeps_bind;
    [apply retryWithTraditionalChineseFlow_keeps | intros ?; apply keeps_ret].
Qed.

(** X19.  With Simplified Chinese selected, an upload never brings results to
    the screen, whatever the image, the engine and the user do, as long as
    the engine reports a confidence of at most 100 percent: the first pass is
    always sent to the retry, and the method returns with what the retry
    returns, before the candidates are looked for. *)
Theorem simplified_chinese_never_shown (file : File) (st : Page) :
  selectedLanguage env = js "chi_sim" ->
  (forall data, recognized env = Returned data ->
                (td_confidence data <= 100)%Q) ->
  let st' := snd (MultiLang.handleImageUpload env file st) in
  exists evs, events st' = events st ++ evs /\ Forall notShown evs.
Proof.
  intros L C.
  assert (K : keeps (grownBy notShown (events st))
                (MultiLang.handleImageUpload env file)).
  { unfold MultiLang.handleImageUpload, emit.
    destruct (negb _); [keeps_steps|].
    do 2 (apply keeps_bind; [keeps_steps | intros ?]).
    apply keeps_tryCatch.
    - apply keeps_bind; [keeps_steps | intros blob].
      now apply processImageWithTesseract_chi_sim.
    - intros e. unfold reportFailure, typeError, emit. keeps_steps. }
  specialize (K st (grownBy_refl _ st)). cbv zeta.
  destruct (MultiLang.handleImageUpload env file st) as [[[]| |] st'];
    exact K.
Qed.


Lemma processImageWithTesseract_cancelled_multi evs0 r0 c0 file :
  c0 || cancelDuring env AtCreateWorker || cancelDuring env AtSetParameters
  || (MultiLang.isCJK (selectedLanguage env)
      && cancelDuring env AtPreprocessChinese)
  || cancelDuring env AtRecognize = true ->
  hoare (withinCancelled notShown evs0 r0 c0)
    (MultiLang.processImageWithTesseract env file)
    (fun _ => within notShown evs0 r0) (within notShown evs0 r0).
Proof.
  intros C. unfold MultiLang.processImageWithTesseract, declinedLargeImage,
    theWorker, typeError, emit.
  set (W := within notShown evs0 r0).
  set (WC := withinCancelled notShown evs0 r0).
  assert (WCW : forall c st, WC c st -> W st)
    by (intros c st; apply withinCancelled_within).
  eapply hoare_tryCatch with (X' := W); [|auto|].
  2:{ intros e. apply keeps_bind; [|intros ?; apply keeps_raise].
      apply releaseWorker_keeps; intros; state_step. }
  eapply hoare_bind;
    [apply keeps_raising with (J := W); [keeps_steps | apply WCW]
    | intros declined].
  destruct declined.
  { apply hoare_modify. intros st Wst. apply WCW in Wst. unfold W in *.
    state_step. }
  eapply hoare_bind;
    [apply await_withinCancelled; intros ?; exact I | intros ?].
  do 3 (eapply hoare_bind;
        [apply keeps_raising with (J := W); [keeps_steps | apply WCW]
        | intros ?]).
  eapply hoare_bind;
    [apply await_withinCancelled; intros ?; exact I | intros ?].
  eapply hoare_bind
    with (Q := fun _ => WC (c0 || cancelDuring env AtCreateWorker
                            || cancelDuring env AtSetParameters
                            || (MultiLang.isCJK (selectedLanguage env)
                                && cancelDuring env AtPreprocessChinese))).
  { destruct (MultiLang.isCJK (selectedLanguage env)); cbn [andb].
    - apply await_withinCancelled. intros ?; exact I.
    - rewrite orb_false_r. apply keeps_raising; [apply keeps_ret | apply WCW]. }
  intros ?.
  eapply hoare_bind; [apply hoare_get_eq | intros st0].
  destruct (processingCancelled st0) eqn:F.
  { apply hoare_ret. intros st [-> Wst]. exact (WCW _ _ Wst). }
  eapply hoare_assume.
  { intros st [-> Wst]. exact (withinCancelled_down _ _ _ _ _ Wst F). }
  intros C2. rewrite C2 in C. cbn [orb] in C.
  apply hoare_pre with (P' := WC false).
  { intros st [-> Wst]. split; [exact (WCW _ _ Wst) | discriminate]. }
  do 2 (eapply hoare_bind;
        [apply keeps_raising with (J := W); [keeps_steps | apply WCW]
        | intros ?]).
  eapply hoare_bind;
    [apply await_withinCancelled; intros ?; exact I | intros data].
  rewrite C. cbn [orb].
  eapply hoare_bind; [apply hoare_get_eq | intros st1].
  destruct (processingCancelled st1) eqn:F1.
  { apply hoare_ret. intros st [-> Wst]. exact (WCW _ _ Wst). }
  apply hoare_false. intros st [-> Wst].
  pose proof (withinCancelled_down _ _ _ _ _ Wst F1). discriminate.
Qed.


End MultiLangFacts.

(** *** Instances of the properties of uploads *)

(** Without a global [worker], the upload of the photo ends with one
    message, and nothing else. *)
Lemma upload_comes_to_nothing_witness :
  let st' := snd (English.handleImageUpload (calmEnv (js "eng") None never)
                    photo freshPage) in
  events st'
  = [Alert (js "Error processing image: worker is not defined. Please try again.")]
  /\ (exists evs, events st' = events freshPage ++ evs /\ Forall isQuiet evs)
  /\ (ocrResults (held st') = ocrResults (held freshPage)
      \/ ocrResults (held st') = None).
Proof.
  split; [vm_compute; reflexivity|].
  exact (@upload_comes_to_nothing basicHost
           (calmEnv (js "eng") None never) photo freshPage eq_refl).
Defined.


(** Simplified Chinese: the first pass is sent to the retry, and nothing is
    brought to the screen. *)
Lemma simplified_chinese_never_shown_witness :
  let st' := snd (MultiLang.handleImageUpload
                    (calmEnv (js "chi_sim") None never) photo freshPage) in
  List.map (fun e => match e with
                     | Recognize w => Some w
                     | _ => None
                     end) (events st')
  = [ None; Some (WorkerOf (js "chi_sim")); None; None;
      Some (WorkerOf (js "chi_tra")) ]
  /\ exists evs, events st' = events freshPage ++ evs /\ Forall notShown evs.
Proof.
  split; [vm_compute; reflexivity|].
  apply (@simplified_chinese_never_shown basicHost
           (calmEnv (js "chi_sim") None never) photo freshPage eq_refl).
  intros data [= <-]. vm_compute. discriminate.
Defined.


